(** * OpenMEEG geometry reader: a shallow embedding of
      [GeometryReader::read_geom] (OpenMEEG/include/geometry_reader.h)

    The reader consumes a [.geom] head description through a
    [std::ifstream], fills a caller-owned [Geometry] and reports problems
    through C++ exceptions, through [exit(1)] and through [std::cerr].  The
    embedding keeps the three channels apart: a computation is a function
    from a state (stream, destination geometry, text written to [cerr]) to
    an outcome, and the outcome of an exception still carries the state in
    which it was raised, because the destination is a reference that the
    caller keeps after the [throw].

    What [read_geom] calls but geometry_reader.h does not define is taken as
    a parameter: the stream manipulators of IOUtils.H ([LineScanner]) and the
    file system, the mesh loaders, [Interface::check] and the comparison of
    meshes ([Collaborators]).  The theorems hold for every choice of them;
    [the_scanner] and [the_world] are the instances on which the reader is
    run.

    [GeometryReader::read_cond] and the path helpers of the class are
    embedded beside it. *)

From Stdlib Require Import Bool Arith NArith ZArith Lia List Ascii String DecimalString DecimalN.
Import ListNotations.
Local Open Scope string_scope.

Set Implicit Arguments.

(* ===================================================================== *)
(** ** Characters and strings *)
(* ===================================================================== *)

Definition dquote : ascii := "034"%char.
Definition newline : ascii := "010"%char.
Definition nl : string := String newline EmptyString.

(** [std::isspace] in the "C" locale. *)
Definition isspace (c : ascii) : bool :=
  let n := nat_of_ascii c in
  ((n =? 32) || ((9 <=? n) && (n <=? 13)))%nat.

Definition isdigit (c : ascii) : bool :=
  let n := nat_of_ascii c in
  ((48 <=? n) && (n <=? 57))%nat.

Definition digit_value (c : ascii) : N := N.of_nat (nat_of_ascii c - 48).

(** [std::ws]: drop leading white space. *)
Fixpoint skip_ws (s : string) : string :=
  match s with
  | String c rest => if isspace c then skip_ws rest else s
  | EmptyString => EmptyString
  end.

(** The longest prefix without white space, and what follows it. *)
Fixpoint span_word (s : string) : string * string :=
  match s with
  | String c rest =>
      if isspace c then (EmptyString, s)
      else let (w, r) := span_word rest in (String c w, r)
  | EmptyString => (EmptyString, EmptyString)
  end.

(** The longest prefix of decimal digits, and what follows it. *)
Fixpoint span_digits (s : string) : string * string :=
  match s with
  | String c rest =>
      if isdigit c then let (w, r) := span_digits rest in (String c w, r)
      else (EmptyString, s)
  | EmptyString => (EmptyString, EmptyString)
  end.

Fixpoint digits_value (acc : N) (s : string) : N :=
  match s with
  | String c rest => digits_value (10 * acc + digit_value c)%N rest
  | EmptyString => acc
  end.

(** The text up to the first occurrence of [d] and the text after it, or
    [None] when [d] does not occur. *)
Fixpoint split_at (d : ascii) (s : string) : option (string * string) :=
  match s with
  | String c rest =>
      if Ascii.eqb c d then Some (EmptyString, rest)
      else match split_at d rest with
           | Some (a, b) => Some (String c a, b)
           | None => None
           end
  | EmptyString => None
  end.

Fixpoint strip_prefix (p s : string) : option string :=
  match p with
  | EmptyString => Some s
  | String a p' =>
      match s with
      | String b s' => if Ascii.eqb a b then strip_prefix p' s' else None
      | EmptyString => None
      end
  end.

(** [filename.find_last_of('/')]: the position of the last ['/'] counted
    from the front. *)
Fixpoint find_last_of (d : ascii) (s : string) : option nat :=
  match s with
  | String c rest =>
      match find_last_of d rest with
      | Some p => Some (S p)
      | None => if Ascii.eqb c d then Some 0 else None
      end
  | EmptyString => None
  end.

(** [name[0]]: since C++11 the element at [size()] is the null character. *)
Definition char0 (s : string) : ascii :=
  match s with
  | String c _ => c
  | EmptyString => zero
  end.

(** [id.substr(1,id.size())]. *)
Definition substr1 (s : string) : string :=
  match s with
  | String _ rest => rest
  | EmptyString => EmptyString
  end.

(* ===================================================================== *)
(** ** Unsigned machine integers *)
(* ===================================================================== *)

(** [unsigned] is a 32-bit integer; arithmetic on it wraps. *)
Definition UINT_MODULUS : Z := 2 ^ 32.
Definition wrap (z : Z) : Z := z mod UINT_MODULUS.

(* ===================================================================== *)
(** ** Input streams *)
(* ===================================================================== *)

(** A [std::istream]: the characters not yet read and the fail bit.  The end
    of file bit is not kept apart: every extraction that finds no character
    raises the fail bit by itself. *)
Record istream : Type := mk_istream { buf : string; failbit : bool }.

Definition stream_of (text : string) : istream :=
  {| buf := text; failbit := false |}.

Definition set_fail (i : istream) : istream :=
  {| buf := buf i; failbit := true |}.

(** [is >> n] for [unsigned n].  [old] is the content of the variable before
    the extraction: [None] stands for a variable that was declared without an
    initialiser and never written.  A stream that has already failed leaves
    the variable alone.  Otherwise white space is skipped, an optional sign
    and a run of digits are read; without digits the variable receives 0 and
    the fail bit is raised; a magnitude beyond the range of [unsigned] gives
    the largest value and raises the fail bit; a minus sign negates modulo
    [2^32]. *)
Definition read_unsigned (old : option Z) (i : istream) : option Z * istream :=
  if failbit i then (old, i)
  else
    let s := skip_ws (buf i) in
    let '(negative, body) :=
      match s with
      | String c rest =>
          if Ascii.eqb c "-" then (true, rest)
          else if Ascii.eqb c "+" then (false, rest)
          else (false, s)
      | EmptyString => (false, s)
      end in
    let (ds, rest) := span_digits body in
    match ds with
    | EmptyString => (Some 0%Z, {| buf := s; failbit := true |})
    | _ =>
        let v := Z.of_N (digits_value 0 ds) in
        if (UINT_MODULUS <=? v)%Z
        then (Some (UINT_MODULUS - 1)%Z, {| buf := rest; failbit := true |})
        else (Some (if negative then wrap (- v) else v),
              {| buf := rest; failbit := false |})
    end.

(** [is >> str] for a [std::string]: skip white space, read up to the next
    white space; no character read raises the fail bit.  [old] is the content
    of the string before the extraction. *)
Definition read_word (old : string) (i : istream) : string * istream :=
  if failbit i then (old, i)
  else
    let (w, rest) := span_word (skip_ws (buf i)) in
    match w with
    | EmptyString => (EmptyString, {| buf := rest; failbit := true |})
    | _ => (w, {| buf := rest; failbit := false |})
    end.

(** [std::getline(is,line)] into a fresh [line]: the text up to the next
    newline, which is consumed; at the end of the input the rest is
    returned, and the fail bit is raised when nothing at all was read. *)
Definition getline (i : istream) : string * istream :=
  if failbit i then (EmptyString, i)
  else
    match split_at newline (buf i) with
    | Some (line, rest) => (line, {| buf := rest; failbit := false |})
    | None =>
        match buf i with
        | EmptyString => (EmptyString, set_fail i)
        | _ => (buf i, {| buf := EmptyString; failbit := false |})
        end
    end.

(** [is.peek()]: the next character, or nothing ([EOF]) when the stream is
    not good or exhausted. *)
Definition peek (i : istream) : option ascii :=
  if failbit i then None
  else match buf i with
       | String c _ => Some c
       | EmptyString => None
       end.

(** The ids that [while (iss >> id)] enumerates on a line: its maximal runs
    of characters other than white space. *)
Fixpoint words_fuel (fuel : nat) (s : string) : list string :=
  match fuel with
  | O => []
  | S fuel' =>
      let (w, rest) := span_word (skip_ws s) in
      match w with
      | EmptyString => []
      | _ => w :: words_fuel fuel' rest
      end
  end.

Definition words (s : string) : list string := words_fuel (String.length s) s.

Definition stream_words (i : istream) : list string :=
  if failbit i then [] else words (buf i).

(* ===================================================================== *)
(** ** Data model *)
(* ===================================================================== *)

(** Modelled from the spec: [Geometry::VersionId] is declared outside of the
    sources at hand.  It is the format-version tag of the model, [VERSION10]
    for the LEGACY format 1.0 and [VERSION11] for the CURRENT format 1.1.
    The reader only ever writes these two; [UNKNOWN_VERSION] is the tag of a
    geometry that was never read into. *)
Inductive VersionId : Type := UNKNOWN_VERSION | VERSION10 | VERSION11.

Definition VersionId_eqb (a b : VersionId) : bool :=
  match a, b with
  | UNKNOWN_VERSION, UNKNOWN_VERSION => true
  | VERSION10, VERSION10 => true
  | VERSION11, VERSION11 => true
  | _, _ => false
  end.

(** A triangle: three indices into the vertex pool.  The coordinates of the
    vertices are floating point data that the reader only hands on, and the
    pool itself is left out of the model. *)
Definition Triangle : Type := (nat * nat * nat)%type.

(** Modelled from the spec: [Mesh] is declared outside of the sources at
    hand.  It is a named triangulated surface, indices into the vertex
    pool. *)
Record Mesh : Type := mk_Mesh {
  mesh_name : string;
  triangles : list Triangle
}.

(** Modelled from the spec: [OrientedMesh] (interface.h, not part of the
    sources at hand) is a reference to a mesh plus a boolean orientation
    flag, the two arguments of its constructor.  The C++ object refers to
    the mesh by address; the reader does not write to the meshes after the
    interfaces are built, so the model keeps the mesh itself.  The members
    of half spaces that the destination held before the call are outside of
    this: they refer to meshes that the run may rewrite. *)
Record OrientedMesh : Type := mk_OrientedMesh {
  mesh : Mesh;
  oriented : bool
}.

(** Modelled from the spec: [OrientedMesh::orientation()] is declared in
    interface.h, which is not part of the sources at hand.  The contribution
    of a member counts +1 for orientation=true and -1 for orientation=false. *)
Definition orientation (om : OrientedMesh) : Z :=
  if oriented om then 1%Z else (-1)%Z.

(** Modelled from the spec: [Interface] (interface.h) is a named ordered
    sequence of oriented meshes and carries an "is outermost" flag. *)
Record Interface : Type := mk_Interface {
  interface_name : string;
  members : list OrientedMesh;
  is_outermost : bool
}.

(** Modelled from the spec: [Interface::set_to_outermost()] (interface.h)
    raises the "is outermost" flag of the interface. *)
Definition set_to_outermost (it : Interface) : Interface :=
  {| interface_name := interface_name it; members := members it;
     is_outermost := true |}.

(** Modelled from the spec: [HalfSpace] (declared outside of the sources at
    hand) is an interface and the [inside] boolean.  The reader builds it
    from [*iit] and reads its interface as [hit->first]: the half space
    holds its own copy of the interface. *)
Record HalfSpace : Type := mk_HalfSpace {
  interface : Interface;
  inside : bool
}.

(** Modelled from the spec: [Domain] (declared outside of the sources at
    hand) is a named region, an ordered collection of half spaces and an
    "outermost" flag.  The conductivity, which [read_cond] attaches later,
    is left out. *)
Record Domain : Type := mk_Domain {
  domain_name : string;
  halfspaces : list HalfSpace;
  outermost : bool
}.

(** A default constructed [Domain], as [resize] appends it. *)
Definition new_Domain : Domain :=
  {| domain_name := ""; halfspaces := []; outermost := false |}.

(** Modelled from the spec: [Geometry] (declared outside of the sources at
    hand), as far as [read_geom] writes to it: the format-version tag, the
    meshes, the domains and the nested-geometry boolean. *)
Record Geometry : Type := mk_Geometry {
  version_id : VersionId;
  meshes_ : list Mesh;
  domains_ : list Domain;
  is_nested_ : bool
}.

Definition empty_Geometry : Geometry :=
  {| version_id := UNKNOWN_VERSION; meshes_ := []; domains_ := [];
     is_nested_ := false |}.

(** [Domains::iterator dit_out;] is declared without an initialiser: until
    the detection pass assigns it, it designates no domain. *)
Inductive DomainIterator : Type :=
| Unassigned
| At (pos : nat).

(** The exceptions that leave [read_geom]. *)
Inductive Exception : Type :=
| OpenError (file : string)
| WrongFileFormat (file : string)
| NonExistingDomain (domain id : string)
| UnknownMesh (id : string)          (* raised by [Geometry::mesh] *)
| MeshLoadError (file : string).     (* raised by the mesh loaders *)

(* ===================================================================== *)
(** ** Containers *)
(* ===================================================================== *)

(** [v[k] = f(v[k])]; nothing happens when [k] is out of range (the reader
    asks for the element first, see [domain_at]). *)
Fixpoint alter_nth {A : Type} (f : A -> A) (k : nat) (l : list A) {struct l}
  : list A :=
  match l, k with
  | [], _ => []
  | x :: rest, O => f x :: rest
  | x :: rest, S k' => x :: alter_nth f k' rest
  end.

(** [std::vector::resize(n)]: keep the first [n] elements, append default
    constructed ones up to [n]. *)
Definition resize {A : Type} (n : nat) (d : A) (l : list A) : list A :=
  firstn n l ++ repeat d (n - List.length l).

(* ===================================================================== *)
(** ** Path helpers of [GeometryReader] (the branch without WIN32) *)
(* ===================================================================== *)

Definition is_relative_path (name : string) : bool :=
  negb (Ascii.eqb (char0 name) "/").

Definition dir (filename : string) : string :=
  match find_last_of "/" filename with
  | None => ""
  | Some pos => substring 0 (pos + 1) filename
  end.

Definition fullname (filename path : string) : string :=
  if is_relative_path filename then path ++ filename else filename.

(** [name(n)]: the decimal writing of [n]. *)
Definition name (n : Z) : string :=
  NilEmpty.string_of_uint (N.to_uint (Z.to_N n)).

(* ===================================================================== *)
(** ** Collaborators *)
(* ===================================================================== *)

(** IOUtils.H is not part of the sources at hand.  Its stream manipulators
    are taken as operations on streams; [the_scanner] below gives the
    instance that follows the description of the line scanner.  [token]
    receives the current content of the string it writes to. *)
Class LineScanner : Type := {
  skip_comments : string -> istream -> istream;
  match_ : string -> istream -> istream;
  match_optional : string -> istream -> bool * istream;
  match_alternative : list string -> istream -> Z * istream;
  token : ascii -> string -> istream -> string * istream;
  filename : ascii -> bool -> istream -> string * istream
}.

(** What [read_geom] calls outside of geometry_reader.h: the file system,
    the mesh loaders of geometry_io.h, [Interface::check] and the comparison
    of meshes.  [None] stands for a loader that raises.
    - [open_file f]: the content of [f] when [std::ifstream] opens it;
    - [load f]: [Mesh::load], the triangles read from [f];
    - [load_vtp f]: the mesh set of [Geometry::load_vtp];
    - [import_meshes ms]: the meshes that [Geometry::import_meshes] leaves
      in the geometry;
    - [check ms]: [Interface::check] on the members [ms], whether the
      interface is closed and the members after the attempt to reorient;
    - [mesh_eqb]: [Mesh::operator==]. *)
Class Collaborators : Type := {
  open_file : string -> option string;
  load : string -> option (list Triangle);
  load_vtp : string -> option (list Mesh);
  import_meshes : list Mesh -> list Mesh;
  check : list OrientedMesh -> bool * list OrientedMesh;
  mesh_eqb : Mesh -> Mesh -> bool
}.

(* ===================================================================== *)
(** ** Computations *)
(* ===================================================================== *)

Record State : Type := mk_State {
  ifs : istream;
  geom : Geometry;
  cerr : string
}.

Inductive Outcome (A : Type) : Type :=
| Ok (a : A) (s : State)              (* the code ran to its end *)
| Throw (e : Exception) (s : State)   (* an exception leaves read_geom *)
| Exit (code : Z) (s : State)         (* exit(code): the process ends *)
| Undefined.                          (* an indeterminate value was read *)

Arguments Ok {A} a s.
Arguments Throw {A} e s.
Arguments Exit {A} code s.
Arguments Undefined {A}.

Definition M (A : Type) : Type := State -> Outcome A.

Definition ret {A : Type} (a : A) : M A := fun s => Ok a s.

Definition bind {A B : Type} (m : M A) (f : A -> M B) : M B :=
  fun s =>
    match m s with
    | Ok a s' => f a s'
    | Throw e s' => Throw e s'
    | Exit c s' => Exit c s'
    | Undefined => Undefined
    end.

Declare Scope reader_scope.
Delimit Scope reader_scope with reader.
Notation "x <- m ;; k" := (bind m (fun x => k))
  (at level 61, m at next level, right associativity) : reader_scope.
Notation "' p <- m ;; k" := (bind m (fun p => k))
  (at level 61, p pattern, m at next level, right associativity) : reader_scope.
Notation "m ;; k" := (bind m (fun _ => k))
  (at level 61, right associativity) : reader_scope.
Local Open Scope reader_scope.

Definition throw {A : Type} (e : Exception) : M A := fun s => Throw e s.
Definition exit {A : Type} (code : Z) : M A := fun s => Exit code s.
Definition undefined {A : Type} : M A := fun _ => Undefined.

(** The value of a variable; reading one that was never written has no
    defined result. *)
Definition use {A : Type} (v : option A) : M A :=
  match v with
  | Some a => ret a
  | None => undefined
  end.

Definition extract {A : Type} (f : istream -> A * istream) : M A :=
  fun s => let (a, i) := f (ifs s) in
           Ok a {| ifs := i; geom := geom s; cerr := cerr s |}.

Definition advance (f : istream -> istream) : M unit :=
  fun s => Ok tt {| ifs := f (ifs s); geom := geom s; cerr := cerr s |}.

(** [ifs.fail()] *)
Definition ifs_fail : M bool := fun s => Ok (failbit (ifs s)) s.

Definition get_geom : M Geometry := fun s => Ok (geom s) s.

Definition modify_geom (f : Geometry -> Geometry) : M unit :=
  fun s => Ok tt {| ifs := ifs s; geom := f (geom s); cerr := cerr s |}.

(** [std::cerr << msg] *)
Definition log (msg : string) : M unit :=
  fun s => Ok tt {| ifs := ifs s; geom := geom s; cerr := cerr s ++ msg |}.

Definition set_version (v : VersionId) (g : Geometry) : Geometry :=
  {| version_id := v; meshes_ := meshes_ g; domains_ := domains_ g;
     is_nested_ := is_nested_ g |}.

Definition set_meshes (ms : list Mesh) (g : Geometry) : Geometry :=
  {| version_id := version_id g; meshes_ := ms; domains_ := domains_ g;
     is_nested_ := is_nested_ g |}.

Definition set_domains (ds : list Domain) (g : Geometry) : Geometry :=
  {| version_id := version_id g; meshes_ := meshes_ g; domains_ := ds;
     is_nested_ := is_nested_ g |}.

Definition set_nested (b : bool) (g : Geometry) : Geometry :=
  {| version_id := version_id g; meshes_ := meshes_ g; domains_ := domains_ g;
     is_nested_ := b |}.

(* ===================================================================== *)
(** ** Sign conventions of the id lists *)
(* ===================================================================== *)

Definition is_sign (c : ascii) : bool := Ascii.eqb c "-" || Ascii.eqb c "+".

(** Lines 274-278: the sign of a mesh id in an interface line.
    [[
    bool oriented = true;
    if ((id[0]=='-') || (id[0]=='+')) {
        oriented = (id[0]=='+');
        id = id.substr(1,id.size());
    }
    ]] *)
Definition mesh_sign (id : string) : bool * string :=
  if is_sign (char0 id) then (Ascii.eqb (char0 id) "+", substr1 id)
  else (true, id).

(** Lines 305-312: the sign of an interface id in a domain line.  The third
    component tells whether the bare keyword [shared] was met, in which case
    the loop over the ids of the line is left.
    [[
    bool inside = false;
    if ((id[0]=='-') || (id[0]=='+')) {
        inside = (id[0]=='-');
        id = id.substr(1,id.size());
    } else if (id=="shared") { ...; break; }
    ]] *)
Definition interface_sign (id : string) : bool * string * bool :=
  if is_sign (char0 id) then (Ascii.eqb (char0 id) "-", substr1 id, false)
  else (false, id, String.eqb id "shared").

(* ===================================================================== *)
(** ** Topology analysis (lines 330-381) *)
(* ===================================================================== *)

(** Lines 335-337: [outer] after the loop over the half spaces of a domain. *)
Definition outer (d : Domain) : bool :=
  fold_left (fun o hit => o && negb (inside hit)) (halfspaces d) true.

(** Lines 340-344: the domain found is flagged and so is the interface of
    each of its half spaces. *)
Definition mark_outermost (d : Domain) : Domain :=
  {| domain_name := domain_name d;
     halfspaces :=
       map (fun hit => {| interface := set_to_outermost (interface hit);
                          inside := inside hit |}) (halfspaces d);
     outermost := true |}.

(** Lines 333-347: the scan for the outermost domain, from position [pos]
    on.  It returns [dit_out] and the domains as the scan leaves them. *)
Fixpoint find_outermost (pos : nat) (ds : list Domain)
  : DomainIterator * list Domain :=
  match ds with
  | [] => (Unassigned, [])
  | d :: rest =>
      if outer d then (At pos, mark_outermost d :: rest)
      else let (dit_out, rest') := find_outermost (S pos) rest in
           (dit_out, d :: rest')
  end.

(** [dit!=dit_out].  Comparing with an iterator that was never assigned has
    no defined result. *)
Definition iterator_neq (pos : nat) (dit_out : DomainIterator) : option bool :=
  match dit_out with
  | Unassigned => None
  | At p => Some (negb (Nat.eqb pos p))
  end.

(** Lines 358-360: [out_interface] after the loop over the half spaces. *)
Definition count_outside (hs : list HalfSpace) : Z :=
  fold_left (fun n hit => if negb (inside hit) then wrap (n + 1) else n) hs 0%Z.

(** Lines 354-365: [nested] after the loop over the domains, from position
    [pos] on. *)
Fixpoint nested_domains (dit_out : DomainIterator) (pos : nat)
    (ds : list Domain) : option bool :=
  match ds with
  | [] => Some true
  | d :: rest =>
      match iterator_neq pos dit_out with
      | None => None
      | Some other =>
          let out_interface :=
            if other then count_outside (halfspaces d) else 0%Z in
          if (2 <=? out_interface)%Z then Some false
          else nested_domains dit_out (S pos) rest
      end
  end.

Section Analysis.
Context {C : Collaborators}.

(** Lines 373-374: one member [iit] seen while counting for the mesh [m]. *)
Definition add_member (m : Mesh) (n : Z) (iit : OrientedMesh) : Z :=
  if mesh_eqb (mesh iit) m then wrap (n + orientation iit) else n.

(** Lines 372-374: the loop over the members of one interface. *)
Definition add_members (m : Mesh) (acc : Z) (it : Interface) : Z :=
  fold_left (add_member m) (members it) acc.

(** Lines 369-374: [m_oriented] for the mesh [m]. *)
Definition m_oriented (m : Mesh) (ds : list Domain) : Z :=
  fold_left (fun n d =>
               fold_left (fun n' hit => add_members m n' (interface hit))
                         (halfspaces d) n)
            ds 0%Z.

(** Lines 367-380: [nested] after the loop over the meshes. *)
Fixpoint nested_meshes (ms : list Mesh) (ds : list Domain) : bool :=
  match ms with
  | [] => true
  | m :: rest =>
      if (m_oriented m ds =? 0)%Z then false else nested_meshes rest ds
  end.

(** Lines 354-381: the value stored in [is_nested_]. *)
Definition classify (dit_out : DomainIterator) (g : Geometry) : option bool :=
  match nested_domains dit_out 0 (domains_ g) with
  | None => None
  | Some nested =>
      Some (if nested then nested_meshes (meshes_ g) (domains_ g) else false)
  end.

End Analysis.

(* ===================================================================== *)
(** ** The reader *)
(* ===================================================================== *)

Section Reader.
Context {L : LineScanner} {C : Collaborators}.

(** The geometry file, whose name appears in messages and exceptions. *)
Variable geometry : string.

(** *** Header (lines 131-148) *)

(** Line 134: both numbers of the version, as far as they were written. *)
Definition read_version (i : istream) : (option Z * option Z) * istream :=
  let i := match_ "# Domain Description " i in
  let (major, i) := read_unsigned None i in
  let i := match_ "." i in
  let (minor, i) := read_unsigned None i in
  ((major, minor), i).

Definition deprecated_file_notice : string :=
  "(DEPRECATED geometry file): " ++ geometry ++ nl ++
  "Please consider updating your geometry file to the new format 1.1 (see data/README.rst): "
  ++ nl.

Definition version_not_available : M unit :=
  log ("Domain Description version not available !" ++ nl) ;;
  throw (WrongFileFormat geometry).

Definition header : M unit :=
  '(major, minor) <- extract read_version ;;
  failed <- ifs_fail ;;
  if failed then throw (WrongFileFormat geometry)
  else
    v0 <- use major ;;
    if negb (v0 =? 1)%Z then version_not_available
    else
      v1 <- use minor ;;
      if (1 <? v1)%Z then version_not_available
      else
        let v := if (v1 =? 0)%Z then VERSION10 else VERSION11 in
        modify_geom (set_version v) ;;
        if VersionId_eqb v VERSION10 then log deprecated_file_notice
        else ret tt.

(** *** Mesh section (lines 156-198) *)

Definition raise_unless {A : Type} (file : string) (r : option A) : M A :=
  match r with
  | Some a => ret a
  | None => throw (MeshLoadError file)
  end.

(** Lines 176-190: one entry [Mesh <name>: <file>] of the list of meshes. *)
Definition mesh_entry (path : string) (i : Z) : M Mesh :=
  advance (fun s => match_ "Mesh" (skip_comments "#" s)) ;;
  next <- (fun s => Ok (peek (ifs s)) s) ;;
  meshname <-
    (if match next with Some c => Ascii.eqb c ":" | None => false end
     then ret (name (wrap (i + 1)))
     else extract (token ":" "")) ;;
  file <- extract (filename dquote false) ;;
  tris <- raise_unless (fullname file path) (load (fullname file path)) ;;
  ret {| mesh_name := meshname; triangles := tris |}.

(** Lines 175-191: the entries [i, i+n) in turn. *)
Fixpoint mesh_entries (path : string) (n : nat) (i : Z) : M (list Mesh) :=
  match n with
  | O => ret []
  | S n' =>
      m <- mesh_entry path i ;;
      rest <- mesh_entries path n' (i + 1)%Z ;;
      ret (m :: rest)
  end.

(** Lines 167-169: [case 0] of the switch. *)
Definition case_MeshFile (path : string) : M unit :=
  file <- extract (fun s => filename dquote false (skip_comments "#" s)) ;;
  ms <- raise_unless (fullname file path) (load_vtp (fullname file path)) ;;
  modify_geom (set_meshes ms).

(** Lines 172-195: [case 1] of the switch. *)
Definition case_Meshes (path : string) : M unit :=
  n <- extract (read_unsigned None) ;;
  nb_meshes <- use n ;;
  meshes <- mesh_entries path (Z.to_nat nb_meshes) 0%Z ;;
  modify_geom (set_meshes (import_meshes meshes)).

(** Lines 161-197.  [case 0] has no [break]: control runs on into
    [case 1]. *)
Definition mesh_section (path : string) : M unit :=
  index <- extract (fun s => match_alternative ["MeshFile"; "Meshes"]
                                               (skip_comments "#" s)) ;;
  if (index =? 0)%Z then case_MeshFile path ;; case_Meshes path
  else if (index =? 1)%Z then case_Meshes path
  else ret tt.

(** *** Interface section (lines 202-282) *)

(** Lines 227-240: an entry read while no mesh is loaded, its name and the
    file of its mesh; the file is loaded once to count its vertices. *)
Definition interface_file (path : string) (i : Z) : M (string * string) :=
  unnamed <- extract (fun s => match_optional "Interface:" (skip_comments "#" s)) ;;
  g <- get_geom ;;
  interfacename <-
    (if unnamed || VersionId_eqb (version_id g) VERSION10
     then ret (name (wrap (i + 1)))
     else extract (fun s => token ":" "" (match_ "Interface" s))) ;;
  file <- extract (filename dquote false) ;;
  _ <- raise_unless (fullname file path) (load (fullname file path)) ;;
  ret (interfacename, fullname file path).

(** Lines 226-241 *)
Fixpoint interface_files (path : string) (n : nat) (i : Z)
  : M (list (string * string)) :=
  match n with
  | O => ret []
  | S n' =>
      e <- interface_file path i ;;
      rest <- interface_files path n' (i + 1)%Z ;;
      ret (e :: rest)
  end.

Definition set_triangles (ts : list Triangle) (m : Mesh) : Mesh :=
  {| mesh_name := mesh_name m; triangles := ts |}.

(** Lines 248-251: the mesh of entry [i] is appended to the geometry and
    loaded, and an interface made of this one mesh is built. *)
Definition load_interface (i : nat) (e : string * string) : M Interface :=
  let (interfacename, file) := e in
  modify_geom (fun g => set_meshes
     (meshes_ g ++ [{| mesh_name := interfacename; triangles := [] |}]) g) ;;
  tris <- raise_unless file (load file) ;;
  modify_geom (fun g => set_meshes (alter_nth (set_triangles tris) i (meshes_ g)) g) ;;
  g <- get_geom ;;
  m <- use (nth_error (meshes_ g) i) ;;
  ret {| interface_name := interfacename;
         members := [ {| mesh := m; oriented := true |} ];
         is_outermost := false |}.

(** Lines 247-252 *)
Fixpoint load_interfaces (i : nat) (es : list (string * string))
  : M (list Interface) :=
  match es with
  | [] => ret []
  | e :: rest =>
      it <- load_interface i e ;;
      its <- load_interfaces (S i) rest ;;
      ret (it :: its)
  end.

(** Modelled from the spec: [Geometry::mesh(id)] is defined outside of the
    sources at hand.  The name is looked up among the meshes already
    loaded; an unknown name is a fatal lookup error. *)
Definition geom_mesh (id : string) : M Mesh :=
  g <- get_geom ;;
  match find (fun m => String.eqb (mesh_name m) id) (meshes_ g) with
  | Some m => ret m
  | None => throw (UnknownMesh id)
  end.

(** Lines 273-280: the signed mesh ids of an interface line. *)
Fixpoint oriented_meshes (ids : list string) : M (list OrientedMesh) :=
  match ids with
  | [] => ret []
  | id :: rest =>
      let (o, id') := mesh_sign id in
      m <- geom_mesh id' ;;
      oms <- oriented_meshes rest ;;
      ret ({| mesh := m; oriented := o |} :: oms)
  end.

(** Lines 258-280: one interface line read while meshes are loaded.
    [interfacename] is declared outside of the loop and carried from one
    line to the next. *)
Definition interface_line (i : Z) (interfacename : string)
  : M (string * Interface) :=
  line <- extract (fun s => getline (skip_comments "#" s)) ;;
  let iss := stream_of line in
  let (unnamed, iss) := match_optional "Interface:" iss in
  let (interfacename, iss) :=
    if unnamed then (name (wrap (i + 1)), iss)
    else token ":" interfacename (match_ "Interface" iss) in
  oms <- oriented_meshes (stream_words iss) ;;
  ret (interfacename,
       {| interface_name := interfacename; members := oms;
          is_outermost := false |}).

(** Lines 257-281 *)
Fixpoint interface_lines (n : nat) (i : Z) (interfacename : string)
  : M (list Interface) :=
  match n with
  | O => ret []
  | S n' =>
      '(interfacename', it) <- interface_line i interfacename ;;
      its <- interface_lines n' (i + 1)%Z interfacename' ;;
      ret (it :: its)
  end.

(** Lines 202-282 *)
Definition interface_section (path : string) : M (list Interface) :=
  n <- extract (fun s =>
         let (n, s) := read_unsigned None
                         (match_ "Interfaces" (skip_comments "#" s)) in
         let (_, s) := match_optional "Mesh" s in
         (n, s)) ;;
  failed <- ifs_fail ;;
  if failed then throw (WrongFileFormat geometry)
  else
    nb_interfaces <- use n ;;
    g <- get_geom ;;
    if (List.length (meshes_ g) =? 0)%nat then
      es <- interface_files path (Z.to_nat nb_interfaces) 0%Z ;;
      load_interfaces 0 es
    else
      interface_lines (Z.to_nat nb_interfaces) 0%Z "".

(** *** Domain section (lines 286-328) *)

(** [*dit] for the domain at position [k]. *)
Definition domain_at (k : nat) : M Domain :=
  g <- get_geom ;;
  use (nth_error (domains_ g) k).

Definition modify_domain (k : nat) (f : Domain -> Domain) : M unit :=
  modify_geom (fun g => set_domains (alter_nth f k (domains_ g)) g).

Definition set_domain_name (n : string) (d : Domain) : Domain :=
  {| domain_name := n; halfspaces := halfspaces d; outermost := outermost d |}.

(** [dit->push_back(hs)] *)
Definition push_halfspace (hs : HalfSpace) (d : Domain) : Domain :=
  {| domain_name := domain_name d; halfspaces := halfspaces d ++ [hs];
     outermost := outermost d |}.

(** [iit->check()]: the verdict, and the interface as the check leaves it. *)
Definition check_interface (it : Interface) : bool * Interface :=
  let (closed, oms) := check (members it) in
  (closed, {| interface_name := interface_name it; members := oms;
              is_outermost := is_outermost it |}).

Definition not_closed_message (it : Interface) : string :=
  "Interface " ++ String dquote (interface_name it)
  ++ String dquote " is not closed !" ++ nl ++
  "Please correct a mesh orientation when defining the interface in the geometry file."
  ++ nl.

(** Lines 313-324: the loop over all interfaces for one id of the domain at
    position [k].  It returns [found] and the interfaces as the checks
    leave them. *)
Fixpoint match_interfaces (k : nat) (id : string) (inside : bool)
    (found : bool) (its : list Interface) : M (bool * list Interface) :=
  match its with
  | [] => ret (found, [])
  | iit :: rest =>
      if String.eqb (interface_name iit) id then
        let (closed, iit') := check_interface iit in
        if negb closed then
          log (not_closed_message iit') ;;
          exit 1
        else
          modify_domain k (push_halfspace {| interface := iit'; inside := inside |}) ;;
          '(found', rest') <- match_interfaces k id inside true rest ;;
          ret (found', iit' :: rest')
      else
        '(found', rest') <- match_interfaces k id inside found rest ;;
        ret (found', iit :: rest')
  end.

Definition shared_notice : string :=
  "(DEPRECATED) Keyword shared is useless. Please consider updating your geometry file to the new format 1.1 (see data/README.rst): "
  ++ geometry ++ nl.

(** Lines 303-327: the loop over the ids of the line of the domain at
    position [k].  It returns the interfaces as the checks leave them. *)
Fixpoint read_ids (k : nat) (ids : list string) (its : list Interface)
  : M (list Interface) :=
  match ids with
  | [] => ret its
  | id :: rest =>
      let '(inside, id', shared) := interface_sign id in
      if shared then log shared_notice ;; ret its
      else
        '(found, its') <- match_interfaces k id' inside false its ;;
        if negb found then
          d <- domain_at k ;;
          throw (NonExistingDomain (domain_name d) id')
        else read_ids k rest its'
  end.

(** Lines 294-301: the name of the domain at position [k] is read and
    stored; the rest of the line is returned. *)
Definition domain_line (k : nat) : M string :=
  advance (fun s => match_ "Domain" (skip_comments "#" s)) ;;
  g <- get_geom ;;
  d <- domain_at k ;;
  n <- extract (if VersionId_eqb (version_id g) VERSION10
                then read_word (domain_name d)
                else token ":" (domain_name d)) ;;
  modify_domain k (set_domain_name n) ;;
  extract getline.

(** Lines 294-327: the domain at position [k]. *)
Definition read_domain (k : nat) (its : list Interface) : M (list Interface) :=
  line <- domain_line k ;;
  read_ids k (words line) its.

(** Lines 293-328: the domains at positions [k, k+n). *)
Fixpoint read_domains (n : nat) (k : nat) (its : list Interface)
  : M (list Interface) :=
  match n with
  | O => ret its
  | S n' =>
      its' <- read_domain k its ;;
      read_domains n' (S k) its'
  end.

(** Lines 286-292: the number of domains is read and the domains of the
    destination are resized to it. *)
Definition domain_count : M nat :=
  n <- extract (fun s => read_unsigned None
                           (match_ "Domains" (skip_comments "#" s))) ;;
  failed <- ifs_fail ;;
  if failed then throw (WrongFileFormat geometry)
  else
    num_domains <- use n ;;
    modify_geom (fun g => set_domains
                   (resize (Z.to_nat num_domains) new_Domain (domains_ g)) g) ;;
    ret (Z.to_nat num_domains).

(** Lines 286-328 *)
Definition domain_section (its : list Interface) : M unit :=
  n <- domain_count ;;
  _ <- read_domains n 0 its ;;
  ret tt.

(** *** Analysis and end of the function (lines 330-388) *)

(** Lines 333-388: the scan for the outermost domain, the classification,
    and the last look at the state of the stream.  Closing the stream
    leaves nothing that the model keeps. *)
Definition analysis : M unit :=
  g <- get_geom ;;
  let (dit_out, ds) := find_outermost 0 (domains_ g) in
  modify_geom (set_domains ds) ;;
  g <- get_geom ;;
  nested <- use (classify dit_out g) ;;
  modify_geom (set_nested nested) ;;
  failed <- ifs_fail ;;
  if failed then throw (WrongFileFormat geometry) else ret tt.

(** Lines 150-328: the sections that follow the header. *)
Definition sections : M unit :=
  let path := dir geometry in
  g <- get_geom ;;
  (if VersionId_eqb (version_id g) VERSION11 then mesh_section path
   else ret tt) ;;
  interfaces <- interface_section path ;;
  domain_section interfaces.

(** Lines 150-388: what follows the header. *)
Definition after_header : M unit := sections ;; analysis.

(** Lines 131-388: what [read_geom] does once the file is open. *)
Definition read_stream : M unit := header ;; after_header.

(** [GeometryReader::read_geom], run on the geometry [g] that the reader
    was built with; [err] is what [std::cerr] has received so far. *)
Definition read_geom (g : Geometry) (err : string) : Outcome unit :=
  match open_file geometry with
  | None =>
      Throw (OpenError geometry)
            {| ifs := {| buf := ""; failbit := true |}; geom := g; cerr := err |}
  | Some text =>
      read_stream {| ifs := stream_of text; geom := g; cerr := err |}
  end.

End Reader.

(** The run of [read_geom] on the destination [g] gets as far as the ids of
    the domain at position [j]: the file is open, the header, the mesh
    section, the interface section and the count of domains are read, so are
    the [j] domains in front, and the name of the domain at position [j];
    [its] are the interfaces, [line] is the rest of the line of the domain
    and [s] the state at this point. *)
Definition at_domain_line {L : LineScanner} {C : Collaborators}
    (geometry : string) (g : Geometry) (err : string)
    (j : nat) (its : list Interface) (line : string) (s : State) : Prop :=
  exists text s1 u s2 its0 s3 n s4 s5,
    open_file geometry = Some text
    /\ header geometry {| ifs := stream_of text; geom := g; cerr := err |}
       = Ok tt s1
    /\ (if VersionId_eqb (version_id (geom s1)) VERSION11
        then mesh_section (dir geometry) else ret tt) s1 = Ok u s2
    /\ interface_section geometry (dir geometry) s2 = Ok its0 s3
    /\ domain_count geometry s3 = Ok n s4
    /\ j < n
    /\ read_domains geometry j 0 its0 s4 = Ok its s5
    /\ domain_line j s5 = Ok line s.

(* ===================================================================== *)
(** ** The line scanner *)
(* ===================================================================== *)

(** Modelled from the spec: [io_utils::skip_comments] (IOUtils.H).  It skips
    whole lines beginning with the marker wherever a keyword is expected,
    together with the white space in front of them. *)
Fixpoint skip_comment_lines (fuel : nat) (marker s : string) : string :=
  match fuel with
  | O => s
  | S fuel' =>
      let s' := skip_ws s in
      match strip_prefix marker s' with
      | None => s'
      | Some _ =>
          match split_at newline s' with
          | Some (_, rest) => skip_comment_lines fuel' marker rest
          | None => ""
          end
      end
  end.

Definition scan_skip_comments (marker : string) (i : istream) : istream :=
  if failbit i then i
  else {| buf := skip_comment_lines (String.length (buf i)) marker (buf i);
          failbit := false |}.

(** Modelled from the spec: [io_utils::match] (IOUtils.H) fails if the
    literal is absent. *)
Definition scan_match (literal : string) (i : istream) : istream :=
  if failbit i then i
  else match strip_prefix literal (skip_ws (buf i)) with
       | Some rest => {| buf := rest; failbit := false |}
       | None => set_fail i
       end.

(** Modelled from the spec: [io_utils::match_optional] (IOUtils.H) tells
    whether the literal was there, and consumes it only then. *)
Definition scan_match_optional (literal : string) (i : istream) : bool * istream :=
  if failbit i then (false, i)
  else match strip_prefix literal (skip_ws (buf i)) with
       | Some rest => (true, {| buf := rest; failbit := false |})
       | None => (false, i)
       end.

(** The first of the literals, counted from [k], that the text starts with,
    and the text behind it. *)
Fixpoint first_alternative (k : Z) (literals : list string) (s : string)
  : option (Z * string) :=
  match literals with
  | [] => None
  | l :: rest =>
      match strip_prefix l s with
      | Some r => Some (k, r)
      | None => first_alternative (k + 1) rest s
      end
  end.

(** Modelled from the spec: [io_utils::match_alternative] (IOUtils.H) gives
    the index of the first literal that is there.  An absent keyword is not
    an error for the section that asks (the mesh section is optional): the
    index is then -1 and the stream is left as it was. *)
Definition scan_match_alternative (literals : list string) (i : istream)
  : Z * istream :=
  if failbit i then ((-1)%Z, i)
  else match first_alternative 0 literals (skip_ws (buf i)) with
       | Some (k, rest) => (k, {| buf := rest; failbit := false |})
       | None => ((-1)%Z, i)
       end.

(** Modelled from the spec: [io_utils::token] (IOUtils.H) reads up to a
    delimiter, which it consumes. *)
Definition scan_token (delimiter : ascii) (old : string) (i : istream)
  : string * istream :=
  if failbit i then (old, i)
  else match split_at delimiter (skip_ws (buf i)) with
       | Some (t, rest) => (t, {| buf := rest; failbit := false |})
       | None => (old, set_fail i)
       end.

(** Modelled from the spec: [io_utils::filename] (IOUtils.H) reads a bare or
    quoted path.  The flag is the last argument of the manipulator, which
    the reader always gives as [false]. *)
Definition scan_filename (quote : ascii) (flag : bool) (i : istream)
  : string * istream :=
  if failbit i then ("", i)
  else
    match skip_ws (buf i) with
    | String c rest =>
        if Ascii.eqb c quote then
          match split_at quote rest with
          | Some (f, rest') => (f, {| buf := rest'; failbit := false |})
          | None => ("", set_fail i)
          end
        else let (w, rest') := span_word (String c rest) in
             (w, {| buf := rest'; failbit := false |})
    | EmptyString => ("", set_fail i)
    end.

Definition the_scanner : LineScanner :=
  {| skip_comments := scan_skip_comments;
     match_ := scan_match;
     match_optional := scan_match_optional;
     match_alternative := scan_match_alternative;
     token := scan_token;
     filename := scan_filename |}.

(* ===================================================================== *)
(** ** A small world to run the reader in *)
(* ===================================================================== *)

(** The directed edges of a member: those of its triangles, turned round
    when the member is flipped. *)
Definition triangle_edges (o : bool) (t : Triangle) : list (nat * nat) :=
  let '(a, b, c) := t in
  if o then [(a, b); (b, c); (c, a)] else [(b, a); (c, b); (a, c)].

Definition member_edges (om : OrientedMesh) : list (nat * nat) :=
  flat_map (triangle_edges (oriented om)) (triangles (mesh om)).

Definition edge_eqb (e f : nat * nat) : bool :=
  (fst e =? fst f)%nat && (snd e =? snd f)%nat.

Definition count_edge (e : nat * nat) (es : list (nat * nat)) : nat :=
  List.length (filter (edge_eqb e) es).

(** Modelled from the spec: the closure check of [Interface::check]
    (interface.h).  The union of the members is closed and consistently
    oriented when every edge appears exactly twice with opposite
    orientation. *)
Definition closed (oms : list OrientedMesh) : bool :=
  let es := flat_map member_edges oms in
  forallb (fun e => (count_edge e es =? 1)%nat
                    && (count_edge (snd e, fst e) es =? 1)%nat) es.

Definition flip (om : OrientedMesh) : OrientedMesh :=
  {| mesh := mesh om; oriented := negb (oriented om) |}.

(** The member lists obtained by flipping one member. *)
Fixpoint single_flips (oms : list OrientedMesh) : list (list OrientedMesh) :=
  match oms with
  | [] => []
  | om :: rest => (flip om :: rest) :: map (cons om) (single_flips rest)
  end.

(** Modelled from the spec: the repair of [Interface::check] (interface.h),
    one deterministic pass that flips individual member orientations to
    achieve closure. *)
Definition check_and_repair (oms : list OrientedMesh) : bool * list OrientedMesh :=
  if closed oms then (true, oms)
  else match find closed (single_flips oms) with
       | Some oms' => (true, oms')
       | None => (false, oms)
       end.

Definition triangle_eqb (s t : Triangle) : bool :=
  let '(a, b, c) := s in
  let '(a', b', c') := t in
  (a =? a')%nat && (b =? b')%nat && (c =? c')%nat.

Fixpoint triangles_eqb (s t : list Triangle) : bool :=
  match s, t with
  | [], [] => true
  | x :: s', y :: t' => triangle_eqb x y && triangles_eqb s' t'
  | _, _ => false
  end.

(** Modelled from the spec: [Mesh::operator==] is defined outside of the
    sources at hand.  Names of meshes are unique within a model; two meshes
    are taken as equal when their names and their triangles agree. *)
Definition same_mesh (m n : Mesh) : bool :=
  String.eqb (mesh_name m) (mesh_name n)
  && triangles_eqb (triangles m) (triangles n).

(** A tetrahedron on the vertices [v .. v+3], a closed surface. *)
Definition tetrahedron (v : nat) : list Triangle :=
  [(v, v + 2, v + 1); (v, v + 1, v + 3); (v + 1, v + 2, v + 3); (v, v + 3, v + 2)].

(** A single triangle, an open surface. *)
Definition patch : list Triangle := [(0, 1, 2)].

Fixpoint lookup {A : Type} (k : string) (table : list (string * A)) : option A :=
  match table with
  | [] => None
  | (k', v) :: rest => if String.eqb k k' then Some v else lookup k rest
  end.

Definition text (lines : list string) : string :=
  fold_right (fun l acc => l ++ nl ++ acc) "" lines.

Definition quoted (s : string) : string :=
  String dquote (s ++ String dquote "").

Definition mesh_files : list (string * list Triangle) :=
  [ ("/head/skull.tri", tetrahedron 0);
    ("/head/brain.tri", tetrahedron 4);
    ("/head/patch.tri", patch) ].

Definition vtp_files : list (string * list Mesh) :=
  [ ("/head/head.vtp",
     [ {| mesh_name := "Skull"; triangles := tetrahedron 0 |};
       {| mesh_name := "Brain"; triangles := tetrahedron 4 |} ]) ].

(** Two nested interfaces, [Skull] around [Brain]. *)
Definition nested_geom : string :=
  text [ "# Domain Description 1.1";
         "Meshes 2";
         "Mesh Skull: " ++ quoted "skull.tri";
         "Mesh Brain: brain.tri";
         "Interfaces 2";
         "Interface Skull: Skull";
         "Interface Brain: Brain";
         "Domains 3";
         "Domain Brain: -Brain";
         "Domain Bone: -Skull +Brain";
         "Domain Air: +Skull" ].

(** An interface made of an open surface. *)
Definition open_geom : string :=
  text [ "# Domain Description 1.1";
         "Meshes 1";
         "Mesh Patch: patch.tri";
         "Interfaces 1";
         "Interface Patch: Patch";
         "Domains 1";
         "Domain Brain: -Patch" ].

(** The meshes come from one merged file. *)
Definition meshfile_geom : string :=
  text [ "# Domain Description 1.1";
         "MeshFile head.vtp";
         "Interfaces 2";
         "Interface Skull: Skull";
         "Interface Brain: Brain";
         "Domains 3";
         "Domain Brain: -Brain";
         "Domain Bone: -Skull +Brain";
         "Domain Air: +Skull" ].

(** Every domain lies inside of some interface. *)
Definition bounded_geom : string :=
  text [ "# Domain Description 1.1";
         "Meshes 1";
         "Mesh Skull: skull.tri";
         "Interfaces 1";
         "Interface Skull: Skull";
         "Domains 1";
         "Domain Brain: -Skull" ].

(** A domain that refers to an interface that does not exist. *)
Definition ventricle_geom : string :=
  text [ "# Domain Description 1.1";
         "Meshes 1";
         "Mesh Skull: skull.tri";
         "Interfaces 1";
         "Interface Skull: Skull";
         "Domains 2";
         "Domain Air: +Skull";
         "Domain Brain: -Skull -Ventricle" ].

(** The same reference, behind the keyword [shared]. *)
Definition shared_geom : string :=
  text [ "# Domain Description 1.1";
         "Meshes 1";
         "Mesh Skull: skull.tri";
         "Interfaces 1";
         "Interface Skull: Skull";
         "Domains 2";
         "Domain Air: +Skull";
         "Domain Brain: -Skull shared Ventricle" ].

(** A head description of a version that does not exist. *)
Definition version2_geom : string :=
  text [ "# Domain Description 2.0" ].

(** The former format: one mesh file per interface. *)
Definition legacy_geom : string :=
  text [ "# Domain Description 1.0";
         "Interfaces 2 Mesh";
         "skull.tri";
         "brain.tri";
         "Domains 3";
         "Domain Brain -2";
         "Domain Bone -1 +2";
         "Domain Air +1" ].

(** A domain whose line holds the keyword [shared] only. *)
Definition vacuous_geom : string :=
  text [ "# Domain Description 1.1";
         "Meshes 1";
         "Mesh Skull: skull.tri";
         "Interfaces 1";
         "Interface Skull: Skull";
         "Domains 2";
         "Domain Brain: -Skull";
         "Domain Air: shared" ].

(** One mesh used as it is by one interface and flipped by another. *)
Definition cancelled_geom : string :=
  text [ "# Domain Description 1.1";
         "Meshes 1";
         "Mesh Skull: skull.tri";
         "Interfaces 2";
         "Interface Outer: +Skull";
         "Interface Inner: -Skull";
         "Domains 2";
         "Domain Brain: -Outer";
         "Domain Air: +Inner" ].

(** A domain that is outside of two interfaces and is not the outermost
    one. *)
Definition two_outside_geom : string :=
  text [ "# Domain Description 1.1";
         "Meshes 2";
         "Mesh Skull: skull.tri";
         "Mesh Brain: brain.tri";
         "Interfaces 2";
         "Interface Skull: Skull";
         "Interface Brain: Brain";
         "Domains 3";
         "Domain Air: +Skull";
         "Domain Brain: -Brain";
         "Domain Between: +Skull +Brain" ].

Definition geometry_files : list (string * string) :=
  [ ("/head/nested.geom", nested_geom);
    ("/head/open.geom", open_geom);
    ("/head/meshfile.geom", meshfile_geom);
    ("/head/bounded.geom", bounded_geom);
    ("/head/ventricle.geom", ventricle_geom);
    ("/head/shared.geom", shared_geom);
    ("/head/version2.geom", version2_geom);
    ("/head/legacy.geom", legacy_geom);
    ("/head/vacuous.geom", vacuous_geom);
    ("/head/cancelled.geom", cancelled_geom);
    ("/head/two_outside.geom", two_outside_geom) ].

Definition the_world : Collaborators :=
  {| open_file := fun f => lookup f geometry_files;
     load := fun f => lookup f mesh_files;
     load_vtp := fun f => lookup f vtp_files;
     import_meshes := fun ms => ms;
     check := check_and_repair;
     mesh_eqb := same_mesh |}.

Definition run (file : string) (g : Geometry) : Outcome unit :=
  @read_geom the_scanner the_world file g "".


(** The interface made of the skull, and the one made of the open patch. *)
Definition skull_interface : Interface :=
  {| interface_name := "Skull";
     members := [ {| mesh := {| mesh_name := "Skull"; triangles := tetrahedron 0 |};
                     oriented := true |} ];
     is_outermost := false |}.

Definition patch_interface : Interface :=
  {| interface_name := "Patch";
     members := [ {| mesh := {| mesh_name := "Patch"; triangles := patch |};
                     oriented := true |} ];
     is_outermost := false |}.

(** A domain named [Brain], before its ids are read. *)
Definition brain_domain : Domain :=
  {| domain_name := "Brain"; halfspaces := []; outermost := false |}.

(** The run on [open_geom] when the ids of its domain are about to be
    read. *)
Definition at_patch_line : State :=
  {| ifs := stream_of "";
     geom := {| version_id := VERSION11;
                meshes_ := [ {| mesh_name := "Patch"; triangles := patch |} ];
                domains_ := [brain_domain];
                is_nested_ := false |};
     cerr := "" |}.

(** The run on [ventricle_geom] when the ids of its second domain are about
    to be read, and once the first of them was read. *)
Definition air_domain : Domain :=
  {| domain_name := "Air";
     halfspaces := [ {| interface := skull_interface; inside := false |} ];
     outermost := false |}.

Definition at_ventricle_line : State :=
  {| ifs := stream_of "";
     geom := {| version_id := VERSION11;
                meshes_ := [ {| mesh_name := "Skull"; triangles := tetrahedron 0 |} ];
                domains_ := [air_domain; brain_domain];
                is_nested_ := false |};
     cerr := "" |}.

Definition after_skull_id : State :=
  {| ifs := stream_of "";
     geom := {| version_id := VERSION11;
                meshes_ := [ {| mesh_name := "Skull"; triangles := tetrahedron 0 |} ];
                domains_ :=
                  [ air_domain;
                    {| domain_name := "Brain";
                       halfspaces := [ {| interface := skull_interface; inside := true |} ];
                       outermost := false |} ];
                is_nested_ := false |};
     cerr := "" |}.

(* ===================================================================== *)
(** ** The properties, in the words of the specification *)
(* ===================================================================== *)

(** All half spaces of the domain have inside=false. *)
Definition all_outside (d : Domain) : Prop :=
  forall hs, In hs (halfspaces d) -> inside hs = false.

(** The number of half spaces of the domain with inside=false. *)
Definition outside_count (d : Domain) : nat :=
  List.length (filter (fun hs => negb (inside hs)) (halfspaces d)).

(** (a) Some non-outermost domain has two or more half spaces with
    inside=false. *)
Definition two_outside (ds : list Domain) : bool :=
  existsb (fun d => negb (outermost d) && (2 <=? outside_count d)%nat) ds.

(** The interface members of all (domain, half space, interface member)
    triples. *)
Definition participations (ds : list Domain) : list OrientedMesh :=
  flat_map (fun d => flat_map (fun hs => members (interface hs)) (halfspaces d)) ds.

(** The net signed orientation of a mesh: +1 for orientation=true, -1 for
    orientation=false, summed over the triples it participates in. *)
Definition net_orientation {C : Collaborators} (m : Mesh) (ds : list Domain) : Z :=
  fold_right Z.add 0%Z
    (map orientation (filter (fun om => mesh_eqb (mesh om) m) (participations ds))).

(** (b) The net signed orientation of some mesh equals zero. *)
Definition cancelled_mesh {C : Collaborators} (ms : list Mesh) (ds : list Domain) : bool :=
  existsb (fun m => (net_orientation m ds =? 0)%Z) ms.

(** The counters of the classification do not reach [2^32]: every domain has
    fewer half spaces than that, and there are fewer triples than that. *)
Definition counts_fit (ds : list Domain) : Prop :=
  Forall (fun d => (Z.of_nat (List.length (halfspaces d)) < UINT_MODULUS)%Z) ds
  /\ (Z.of_nat (List.length (participations ds)) < UINT_MODULUS)%Z.

(** No domain of the geometry carries the outermost flag. *)
Definition unflagged (g : Geometry) : Prop :=
  Forall (fun d => outermost d = false) (domains_ g).

(** The two ways the scan can end on domains without flag. *)
Inductive scanned : list Domain -> DomainIterator -> list Domain -> Prop :=
| scanned_none ds :
    Forall (fun d => outermost d = false) ds ->
    Forall (fun d => outer d = false) ds ->
    scanned ds Unassigned ds
| scanned_at pre d post :
    Forall (fun d => outermost d = false) pre ->
    Forall (fun d => outermost d = false) post ->
    Forall (fun d => outer d = false) pre ->
    outer d = true ->
    scanned (pre ++ d :: post) (At (List.length pre)) (pre ++ mark_outermost d :: post).

(** The id starts with ['-']. *)
Definition leading_minus (id : string) : bool := Ascii.eqb (char0 id) "-".

(** The id without its sign. *)
Definition unsigned_id (id : string) : string :=
  if is_sign (char0 id) then substr1 id else id.

(** The bare keyword [shared]. *)
Definition is_shared (id : string) : bool :=
  negb (is_sign (char0 id)) && String.eqb id "shared".

(** The ids of a domain line in front of the first bare [shared]. *)
Fixpoint ids_before_shared (ids : list string) : list string :=
  match ids with
  | [] => []
  | id :: rest =>
      if is_shared id then []
      else id :: ids_before_shared rest
  end.

(** What a signed id of a domain line refers to: every interface of the
    name that is left without the sign, with inside=true exactly when the
    sign is ['-']. *)
Definition referenced (its : list Interface) (id : string) : list (string * bool) :=
  map (fun it => (interface_name it, leading_minus id))
      (filter (fun it => String.eqb (interface_name it) (unsigned_id id)) its).

(** The name of the interface and the side of each half space. *)
Definition sides (hs : list HalfSpace) : list (string * bool) :=
  map (fun h => (interface_name (interface h), inside h)) hs.

(** The interface of the half space is as a check that passed left it. *)
Definition checked {C : Collaborators} (hs : HalfSpace) : Prop :=
  exists oms, check oms = (true, members (interface hs)).

(** Every half space of every domain of the geometry is so. *)
Definition all_checked {C : Collaborators} (g : Geometry) : Prop :=
  Forall (fun d => Forall checked (halfspaces d)) (domains_ g).

(** No member of a (domain, half space, interface member) triple is the
    mesh [m]. *)
Definition unused {C : Collaborators} (m : Mesh) (ds : list Domain) : Prop :=
  Forall (fun om => mesh_eqb (mesh om) m = false) (participations ds).

(** The character [c] occurs in [s]. *)
Fixpoint contains (c : ascii) (s : string) : bool :=
  match s with
  | String x rest => Ascii.eqb x c || contains c rest
  | EmptyString => false
  end.

(** An interface made of one mesh that carries its name, well oriented,
    and not flagged. *)
Definition one_mesh (it : Interface) : Prop :=
  exists m, members it = [ {| mesh := m; oriented := true |} ]
            /\ mesh_name m = interface_name it
            /\ is_outermost it = false.

(** The meshes that the interfaces are made of, in their order. *)
Definition interface_meshes (its : list Interface) : list Mesh :=
  flat_map (fun it => map mesh (members it)) its.

(** The names [1], [2], ..., [n]. *)
Definition default_names (n : nat) : list string :=
  map (fun k => name (Z.of_nat k)) (seq 1 n).

(** The members of the interface are meshes of [ms], and the interface is
    not flagged. *)
Definition made_of (ms : list Mesh) (it : Interface) : Prop :=
  Forall (fun om => In (mesh om) ms) (members it)
  /\ is_outermost it = false.

(** The state of a run on [legacy_geom] behind the header, and the state of
    a run on [nested_geom] behind the mesh section. *)
Definition at_legacy_interfaces : State :=
  {| ifs := stream_of (text [ "Interfaces 2 Mesh"; "skull.tri"; "brain.tri";
                              "Domains 0" ]);
     geom := set_version VERSION10 empty_Geometry;
     cerr := "" |}.

Definition at_nested_interfaces : State :=
  {| ifs := stream_of (text [ "Interfaces 2"; "Interface Skull: Skull";
                              "Interface Brain: -Brain"; "Domains 0" ]);
     geom := {| version_id := VERSION11;
                meshes_ := [ {| mesh_name := "Skull"; triangles := tetrahedron 0 |};
                             {| mesh_name := "Brain"; triangles := tetrahedron 4 |} ];
                domains_ := [];
                is_nested_ := false |};
     cerr := "" |}.

(* ===================================================================== *)
(** ** [GeometryReader::read_cond] (lines 391-406) *)
(* ===================================================================== *)

Section Conductivities.

(** The value of [Conductivity<double>::sigma()]. *)
Variable Sigma : Type.

(** Modelled from the spec: the conductivity-properties file is a key/value
    lookup that is parsed outside of the sources at hand.
    [properties condFileName] is the table that the constructor of
    [HeadProperties] leaves, as [properties.find(id)] reads it; [None]
    stands for [UnknownProperty]. *)
Variable properties : string -> string -> option Sigma.

(** Modelled from the spec: a domain eventually carries one conductivity
    value, [dit->sigma()], beside what [read_geom] writes. *)
Record ConductingDomain : Type := {
  domain : Domain;
  sigma : Sigma
}.

(** How [read_cond] ends: it returns, or it throws [BadDomain] with the name
    of a domain.  Both carry the domains as they are then: the geometry is
    a reference that the caller keeps. *)
Inductive CondOutcome : Type :=
| Returned (ds : list ConductingDomain)
| BadDomain (name : string) (ds : list ConductingDomain).

(** Lines 398-405: the loop over the domains. *)
Fixpoint assign_sigma (find : string -> option Sigma)
    (ds : list ConductingDomain) : CondOutcome :=
  match ds with
  | [] => Returned []
  | dit :: rest =>
      match find (domain_name (domain dit)) with
      | None => BadDomain (domain_name (domain dit)) (dit :: rest)
      | Some cond =>
          let dit' := {| domain := domain dit; sigma := cond |} in
          match assign_sigma find rest with
          | Returned rest' => Returned (dit' :: rest')
          | BadDomain n rest' => BadDomain n (dit' :: rest')
          end
      end
  end.

Definition read_cond (condFileName : string) (ds : list ConductingDomain)
  : CondOutcome :=
  assign_sigma (properties condFileName) ds.

(** The conductivity of the domain is the one that the table gives for its
    name. *)
Definition assigned (condFileName : string) (d : ConductingDomain) : Prop :=
  properties condFileName (domain_name (domain d)) = Some (sigma d).

(** The table has an entry for the name of the domain. *)
Definition known (condFileName : string) (d : ConductingDomain) : Prop :=
  properties condFileName (domain_name (domain d)) <> None.

End Conductivities.

(** A table with the conductivities of two domains and of one that no
    geometry file here has. *)
Definition head_properties (file id : string) : option Z :=
  if String.eqb file "/head/head.cond" then
    if String.eqb id "Brain" then Some 100%Z
    else if String.eqb id "Air" then Some 0%Z
    else if String.eqb id "Scalp" then Some 33%Z
    else None
  else None.

Definition conducting (d : Domain) : ConductingDomain Z :=
  {| domain := d; sigma := (-1)%Z |}.

Definition bone_domain : Domain :=
  {| domain_name := "Bone"; halfspaces := []; outermost := false |}.

(** Lines 177-185: the name and the file of the entry [i] of the list of
    meshes, as they stand in the stream. *)
Definition mesh_entry_names {L : LineScanner} (i : Z) (st : istream)
  : (string * string) * istream :=
  let is1 := match_ "Mesh" (skip_comments "#" st) in
  let (meshname, is2) :=
    if match peek is1 with Some c => Ascii.eqb c ":" | None => false end
    then (name (wrap (i + 1)), is1)
    else token ":" "" is1 in
  let (file, is3) := filename dquote false is2 in
  ((meshname, file), is3).

(** The names and files of the entries [i, i+n) of the list of meshes, and
    the stream behind them. *)
Fixpoint mesh_list {L : LineScanner} (n : nat) (i : Z) (st : istream)
  : list (string * string) * istream :=
  match n with
  | O => ([], st)
  | S n' =>
      let (e, is1) := mesh_entry_names i st in
      let (es, is2) := mesh_list n' (i + 1)%Z is1 in
      (e :: es, is2)
  end.

(** The mesh carries the name of the entry, and its triangles were loaded
    from the file of the entry, resolved against [path]. *)
Definition entry_mesh {C : Collaborators} (path : string)
    (e : string * string) (m : Mesh) : Prop :=
  mesh_name m = fst e /\ load (fullname (snd e) path) = Some (triangles m).

(** The state of a run on [nested_geom] behind the keyword [Meshes], on a
    destination that holds a mesh and a domain. *)
Definition at_nested_meshes : State :=
  {| ifs := stream_of (text [ " 2"; "Mesh Skull: skull.tri";
                              "Mesh Brain: brain.tri"; "Interfaces 0" ]);
     geom := {| version_id := VERSION11;
                meshes_ := [ {| mesh_name := "Patch"; triangles := patch |} ];
                domains_ := [air_domain];
                is_nested_ := false |};
     cerr := "" |}.

(** A mesh that no interface is made of. *)
Definition spare_geom : string :=
  text [ "# Domain Description 1.1";
         "Meshes 2";
         "Mesh Skull: skull.tri";
         "Mesh Brain: brain.tri";
         "Interfaces 1";
         "Interface Skull: Skull";
         "Domains 2";
         "Domain Brain: -Skull";
         "Domain Air: +Skull" ].

Definition more_geometry_files : list (string * string) :=
  [ ("/head/spare.geom", spare_geom) ].

(** The same world with more geometry files. *)
Definition the_wider_world : Collaborators :=
  {| open_file := fun f => lookup f (more_geometry_files ++ geometry_files)%list;
     load := fun f => lookup f mesh_files;
     load_vtp := fun f => lookup f vtp_files;
     import_meshes := fun ms => ms;
     check := check_and_repair;
     mesh_eqb := same_mesh |}.

(** A destination that holds a domain already. *)
Definition used_Geometry : Geometry := set_domains [air_domain] empty_Geometry.

(** What a half space holds besides the outermost flag of its interface:
    the name and the members of the interface, and the side. *)
Definition half_space_content (hs : HalfSpace)
  : string * list OrientedMesh * bool :=
  (interface_name (interface hs), members (interface hs), inside hs).

(** What a domain holds besides the outermost flags: its name and the
    contents of its half spaces. *)
Definition contents (d : Domain)
  : string * list (string * list OrientedMesh * bool) :=
  (domain_name d, map half_space_content (halfspaces d)).

(** The half spaces of [d'] are those of [d], in their order, followed by
    others; a half space is taken by the name of its interface and its
    side, which it holds by value. *)
Definition extends (d d' : Domain) : Prop :=
  exists added,
    sides (halfspaces d') = (sides (halfspaces d) ++ added)%list.

(** The number of domains that the run of [read_geom] on the destination
    [g] reads at the [Domains] line: the run up to the end of line 292. *)
Definition announced_domains {L : LineScanner} {C : Collaborators}
    (geometry : string) (g : Geometry) (err : string) : Outcome nat :=
  match open_file geometry with
  | None =>
      Throw (OpenError geometry)
            {| ifs := {| buf := ""; failbit := true |}; geom := g; cerr := err |}
  | Some text =>
      bind (header geometry) (fun _ =>
      bind get_geom (fun g0 =>
      bind (if VersionId_eqb (version_id g0) VERSION11
            then mesh_section (dir geometry) else ret tt) (fun _ =>
      bind (interface_section geometry (dir geometry)) (fun _ =>
      domain_count geometry))))
        {| ifs := stream_of text; geom := g; cerr := err |}
  end.

(** The exception [e], raised in the state [s], has its reason: the file
    named is the geometry file (which could not be opened, for
    [OpenError]), the domain named is a domain of the destination, the mesh
    named is not among the meshes of the destination, and the mesh file
    named is one that a loader refused. *)
Definition justified {C : Collaborators} (geometry : string)
    (e : Exception) (s : State) : Prop :=
  match e with
  | OpenError f => f = geometry /\ open_file geometry = None
  | WrongFileFormat f => f = geometry
  | NonExistingDomain dn _ =>
      exists k d, nth_error (domains_ (geom s)) k = Some d /\ domain_name d = dn
  | UnknownMesh id =>
      find (fun m => String.eqb (mesh_name m) id) (meshes_ (geom s)) = None
  | MeshLoadError f => load f = None \/ load_vtp f = None
  end.

(** The process ends with status 1, and the last thing written to the
    error stream is the diagnostic of an interface that failed its check. *)
Definition after_failed_check {C : Collaborators} (c : Z) (s : State) : Prop :=
  c = 1%Z
  /\ exists it pre,
       fst (check (members it)) = false
       /\ cerr s = pre ++ not_closed_message it.

(** [ends E X m]: an exception that leaves [m] satisfies [E] with the state
    it is raised in, and a way [m] ends the process satisfies [X]. *)
Definition ends {A : Type} (E : Exception -> State -> Prop)
    (X : Z -> State -> Prop) (m : M A) : Prop :=
  forall s, match m s with
            | Throw e s' => E e s'
            | Exit c s' => X c s'
            | _ => True
            end.

(** [keeps P m]: when [m] runs to its end, a property of the destination
    geometry that held before holds after. *)
Definition keeps {A : Type} (P : Geometry -> Prop) (m : M A) : Prop :=
  forall s a s', m s = Ok a s' -> P (geom s) -> P (geom s').

(* ===================================================================== *)
(** ** Computations: basic facts *)
(* ===================================================================== *)

Lemma bind_Ok_inv {A B : Type} (m : M A) (f : A -> M B) s b s' :
  bind m f s = Ok b s' ->
  exists a s1, m s = Ok a s1 /\ f a s1 = Ok b s'.
Proof.
  unfold bind. destruct (m s) as [a s1| | |]; try discriminate.
  intros H. exists a, s1. split; [reflexivity | exact H].
Qed.

Lemma bind_Exit {A B : Type} (m : M A) (f : A -> M B) s c s1 :
  m s = Exit c s1 -> bind m f s = Exit c s1.
Proof. unfold bind. intros ->. reflexivity. Qed.

Lemma bind_Throw {A B : Type} (m : M A) (f : A -> M B) s e s1 :
  m s = Throw e s1 -> bind m f s = Throw e s1.
Proof. unfold bind. intros ->. reflexivity. Qed.

Lemma keeps_ret {A : Type} P (a : A) : keeps P (ret a).
Proof. intros s a' s' H. inversion H; subst. trivial. Qed.

Lemma keeps_bind {A B : Type} P (m : M A) (f : A -> M B) :
  keeps P m -> (forall a, keeps P (f a)) -> keeps P (bind m f).
Proof.
  intros Hm Hf s b s' H HP.
  apply bind_Ok_inv in H as (a & s1 & H1 & H2).
  eapply Hf; [exact H2 |]. eapply Hm; eassumption.
Qed.

Lemma keeps_extract {A : Type} P (f : istream -> A * istream) : keeps P (extract f).
Proof.
  intros s a s'. unfold extract. destruct (f (ifs s)).
  intros H; inversion H; subst. trivial.
Qed.

Lemma keeps_advance P f : keeps P (advance f).
Proof. intros s a s' H. inversion H; subst. trivial. Qed.

Lemma keeps_ifs_fail P : keeps P ifs_fail.
Proof. intros s a s' H. inversion H; subst. trivial. Qed.

Lemma keeps_get_geom P : keeps P get_geom.
Proof. intros s a s' H. inversion H; subst. trivial. Qed.

Lemma keeps_log P msg : keeps P (log msg).
Proof. intros s a s' H. inversion H; subst. trivial. Qed.

Lemma keeps_throw {A : Type} P e : keeps P (@throw A e).
Proof. intros s a s' H. discriminate. Qed.

Lemma keeps_exit {A : Type} P c : keeps P (@exit A c).
Proof. intros s a s' H. discriminate. Qed.

Lemma keeps_use {A : Type} P (v : option A) : keeps P (use v).
Proof.
  destruct v; intros s a' s' H; [inversion H; subst; trivial | discriminate].
Qed.

Lemma keeps_modify_geom (P : Geometry -> Prop) f :
  (forall g, P g -> P (f g)) -> keeps P (modify_geom f).
Proof. intros Hf s a s' H. inversion H; subst. simpl. apply Hf. Qed.

Lemma keeps_peek P : keeps P (fun s => Ok (peek (ifs s)) s).
Proof. intros s a s' H. inversion H; subst. trivial. Qed.

Create HintDb keeps discriminated.
#[local] Hint Resolve keeps_ret keeps_extract keeps_advance keeps_ifs_fail
  keeps_get_geom keeps_log keeps_throw keeps_exit keeps_use keeps_peek : keeps.

(** Break a computation along its binds and branches. *)
Ltac keeps_step :=
  match goal with
  | |- keeps _ (bind _ _) => apply keeps_bind; [| intros ?]
  | |- keeps _ (if ?b then _ else _) => destruct b
  | |- keeps _ (match ?x with _ => _ end) => destruct x
  | |- keeps _ (let (_, _) := ?x in _) => destruct x
  | |- keeps _ _ => solve [auto with keeps]
  end.

(* ===================================================================== *)
(** ** What the sections leave alone in the destination *)
(* ===================================================================== *)

Section Kept.
Context {L : LineScanner} {C : Collaborators}.
Variable geometry : string.

(** A property of the geometry that no write of the sections disturbs. *)
Variable P : Geometry -> Prop.
Hypothesis P_meshes : forall ms g, P g -> P (set_meshes ms g).
Hypothesis P_resize :
  forall n g, P g -> P (set_domains (resize n new_Domain (domains_ g)) g).
Hypothesis P_name :
  forall n k g, P g -> P (set_domains (alter_nth (set_domain_name n) k (domains_ g)) g).
Hypothesis P_push :
  forall hs k g, P g -> P (set_domains (alter_nth (push_halfspace hs) k (domains_ g)) g).

Lemma keeps_raise_unless {A : Type} file (r : option A) :
  keeps P (raise_unless file r).
Proof. unfold raise_unless. repeat keeps_step. Qed.

Hint Resolve keeps_raise_unless : keeps.

Lemma keeps_mesh_entries path n : forall i, keeps P (mesh_entries path n i).
Proof.
  induction n as [| n IH]; intros i; simpl; [auto with keeps |].
  unfold mesh_entry. repeat keeps_step; try apply IH.
Qed.

Lemma keeps_mesh_section path : keeps P (mesh_section path).
Proof.
  unfold mesh_section, case_MeshFile, case_Meshes.
  repeat keeps_step;
    try (apply keeps_modify_geom; intros; apply P_meshes; assumption);
    try apply keeps_mesh_entries.
Qed.

Lemma keeps_interface_files path n : forall i, keeps P (interface_files path n i).
Proof.
  induction n as [| n IH]; intros i; simpl; [auto with keeps |].
  unfold interface_file. repeat keeps_step; try apply IH.
Qed.

Lemma keeps_load_interfaces es : forall i, keeps P (load_interfaces i es).
Proof.
  induction es as [| e es IH]; intros i; simpl; [auto with keeps |].
  unfold load_interface. destruct e as [n f].
  repeat keeps_step;
    try (apply keeps_modify_geom; intros; apply P_meshes; assumption);
    try apply IH.
Qed.

Lemma keeps_oriented_meshes ids : keeps P (oriented_meshes ids).
Proof.
  induction ids as [| id ids IH]; simpl; [auto with keeps |].
  unfold geom_mesh. repeat keeps_step; try exact IH.
Qed.

Lemma keeps_interface_lines n : forall i nm, keeps P (interface_lines n i nm).
Proof.
  induction n as [| n IH]; intros i nm; simpl; [auto with keeps |].
  unfold interface_line.
  repeat keeps_step; try apply keeps_oriented_meshes; try apply IH.
Qed.

Lemma keeps_interface_section path : keeps P (interface_section geometry path).
Proof.
  unfold interface_section.
  repeat keeps_step;
    auto using keeps_interface_files, keeps_load_interfaces, keeps_interface_lines.
Qed.

Lemma keeps_domain_at k : keeps P (domain_at k).
Proof. unfold domain_at. repeat keeps_step. Qed.

Hint Resolve keeps_domain_at : keeps.

Lemma keeps_match_interfaces k id ins its :
  forall found, keeps P (match_interfaces k id ins found its).
Proof.
  induction its as [| it its IH]; intros found; simpl; [auto with keeps |].
  unfold modify_domain.
  repeat keeps_step;
    try (apply keeps_modify_geom; intros; apply P_push; assumption);
    try apply IH.
Qed.

Lemma keeps_read_ids k ids : forall its, keeps P (read_ids geometry k ids its).
Proof.
  induction ids as [| id ids IH]; intros its; simpl; [auto with keeps |].
  destruct (interface_sign id) as [[ins id'] shared].
  repeat keeps_step; try apply keeps_match_interfaces; try apply IH.
Qed.

Lemma keeps_read_domains n : forall k its, keeps P (read_domains geometry n k its).
Proof.
  induction n as [| n IH]; intros k its; simpl; [auto with keeps |].
  unfold read_domain, domain_line, modify_domain.
  repeat keeps_step;
    try (apply keeps_modify_geom; intros; apply P_name; assumption);
    try apply keeps_read_ids; try apply IH.
Qed.

Lemma keeps_domain_section its : keeps P (domain_section geometry its).
Proof.
  unfold domain_section, domain_count.
  repeat keeps_step;
    try (apply keeps_modify_geom; intros; apply P_resize; assumption);
    try apply keeps_read_domains.
Qed.

Lemma keeps_sections : keeps P (sections geometry).
Proof.
  unfold sections.
  repeat keeps_step;
    auto using keeps_mesh_section, keeps_interface_section, keeps_domain_section.
Qed.

End Kept.

(* ===================================================================== *)
(** ** The header *)
(* ===================================================================== *)

Lemma read_unsigned_range i v i' :
  read_unsigned None i = (Some v, i') -> (0 <= v < UINT_MODULUS)%Z.
Proof.
  unfold read_unsigned.
  destruct (failbit i); [discriminate |].
  destruct (skip_ws (buf i)) as [| c rest] eqn:Es.
  - simpl. intros H; inversion H; subst. unfold UINT_MODULUS. lia.
  - set (sb := if Ascii.eqb c "-" then (true, rest)
               else if Ascii.eqb c "+" then (false, rest)
               else (false, String c rest)).
    destruct sb as [negative body].
    destruct (span_digits body) as [ds rest'].
    destruct ds as [| d ds'].
    + intros H; inversion H; subst. unfold UINT_MODULUS. lia.
    + remember (Z.of_N (digits_value 0 (String d ds'))) as n eqn:En.
      assert (Hn : (0 <= n)%Z) by (subst n; apply N2Z.is_nonneg).
      clear En.
      destruct (UINT_MODULUS <=? n)%Z eqn:Ev.
      * intros H; inversion H; subst. unfold UINT_MODULUS. lia.
      * apply Z.leb_gt in Ev.
        intros H; inversion H; subst.
        destruct negative.
        -- unfold wrap. apply Z.mod_pos_bound. unfold UINT_MODULUS. lia.
        -- lia.
Qed.

Section Header.
Context {L : LineScanner} {C : Collaborators}.
Variable geometry : string.

(** The second number of the version is in the range of [unsigned]. *)
Lemma read_version_minor i major minor i' :
  read_version i = ((major, Some minor), i') -> (0 <= minor < UINT_MODULUS)%Z.
Proof.
  unfold read_version.
  destruct (read_unsigned None (match_ "# Domain Description " i)) as [v0 i1].
  destruct (read_unsigned None (match_ "." i1)) as [v1 i2] eqn:E.
  intros H; inversion H; subst.
  eapply read_unsigned_range; exact E.
Qed.

(** An exception of the header leaves the destination as it was. *)
Lemma header_Throw s e s' :
  header geometry s = Throw e s' -> geom s' = geom s.
Proof.
  unfold header, version_not_available, bind, extract, ifs_fail, use, log,
    throw, modify_geom, ret, undefined.
  destruct (read_version (ifs s)) as [[major minor] i]; simpl.
  destruct (failbit i); [intros H; inversion H; reflexivity |].
  destruct major as [v0 |]; [| discriminate].
  destruct (v0 =? 1)%Z; simpl; [| intros H; inversion H; reflexivity].
  destruct minor as [v1 |]; [| discriminate].
  destruct (1 <? v1)%Z; simpl; [intros H; inversion H; reflexivity |].
  destruct (v1 =? 0)%Z; simpl; discriminate.
Qed.

(** The version tag that the header wrote is the one of the model. *)
Lemma keeps_version_after_header v :
  keeps (fun g => version_id g = v) (after_header geometry).
Proof.
  unfold after_header. apply keeps_bind.
  - apply keeps_sections; intros; assumption.
  - intros _. unfold analysis.
    repeat keeps_step; apply keeps_modify_geom; intros; assumption.
Qed.

End Header.

(* ===================================================================== *)
(** ** The scan for the outermost domain *)
(* ===================================================================== *)

Lemma fold_outer hs : forall o,
  fold_left (fun o hit => o && negb (inside hit)) hs o
  = o && forallb (fun hit => negb (inside hit)) hs.
Proof.
  induction hs as [| h hs IH]; intros o; simpl.
  - now rewrite andb_true_r.
  - rewrite IH. now rewrite andb_assoc.
Qed.

Lemma outer_all_outside d : outer d = true <-> all_outside d.
Proof.
  unfold outer, all_outside. rewrite fold_outer. simpl.
  rewrite forallb_forall. split; intros H hs Hin.
  - specialize (H hs Hin). now destruct (inside hs).
  - rewrite (H hs Hin). reflexivity.
Qed.

Lemma outer_mark_outermost d : outer (mark_outermost d) = outer d.
Proof.
  unfold outer. rewrite !fold_outer. simpl.
  induction (halfspaces d) as [| h hs IH]; simpl; [reflexivity |].
  now rewrite IH.
Qed.

Lemma outer_no_halfspace d : halfspaces d = [] -> outer d = true.
Proof. unfold outer. intros ->. reflexivity. Qed.

(** What the scan returns: either no domain qualifies and nothing is
    written, or the domains split round the first one that qualifies. *)
Lemma find_outermost_spec ds : forall pos,
  match find_outermost pos ds with
  | (Unassigned, ds') =>
      ds' = ds /\ Forall (fun d => outer d = false) ds
  | (At p, ds') =>
      exists pre d post,
        ds = (pre ++ d :: post)%list
        /\ ds' = (pre ++ mark_outermost d :: post)%list
        /\ p = pos + List.length pre /\ outer d = true
        /\ Forall (fun d => outer d = false) pre
  end.
Proof.
  induction ds as [| d ds IH]; intros pos; simpl.
  - split; [reflexivity | constructor].
  - destruct (outer d) eqn:Eo.
    + exists [], d, ds. simpl. repeat split; auto.
    + specialize (IH (S pos)).
      destruct (find_outermost (S pos) ds) as [[| p] ds'].
      * destruct IH as [-> HF]. split; [reflexivity | constructor; assumption].
      * destruct IH as (pre & d0 & post & -> & -> & -> & Ho & HF).
        exists (d :: pre), d0, post. simpl. repeat split; auto; lia.
Qed.

Lemma nth_error_middle {A : Type} (pre : list A) x post i y :
  nth_error (pre ++ x :: post)%list i = Some y ->
  (i < List.length pre /\ nth_error pre i = Some y)
  \/ (i = List.length pre /\ y = x)
  \/ (List.length pre < i /\ nth_error post (i - S (List.length pre)) = Some y).
Proof.
  intros H.
  destruct (Nat.lt_trichotomy i (List.length pre)) as [Hlt | [Heq | Hgt]].
  - left. split; [assumption |]. now rewrite nth_error_app1 in H.
  - right; left. split; [assumption |]. subst i.
    rewrite nth_error_app2 in H by lia. rewrite Nat.sub_diag in H.
    simpl in H. now inversion H.
  - right; right. split; [assumption |].
    rewrite nth_error_app2 in H by lia.
    replace (i - List.length pre) with (S (i - S (List.length pre))) in H by lia.
    exact H.
Qed.

Lemma Forall_nth_error {A : Type} (P : A -> Prop) l i x :
  Forall P l -> nth_error l i = Some x -> P x.
Proof.
  intros HF H. rewrite Forall_forall in HF. apply HF.
  eapply nth_error_In; exact H.
Qed.

(* ===================================================================== *)
(** ** The counters of the classification *)
(* ===================================================================== *)

Lemma wrap_small z : (0 <= z < UINT_MODULUS)%Z -> wrap z = z.
Proof. intros H. unfold wrap. now apply Z.mod_small. Qed.

Lemma filter_length_bound {A : Type} (p : A -> bool) l :
  List.length (filter p l) <= List.length l.
Proof.
  induction l as [| x l IH]; simpl; [lia |].
  destruct (p x); simpl; lia.
Qed.

Lemma fold_count_outside hs : forall acc,
  (0 <= acc)%Z -> (acc + Z.of_nat (List.length hs) < UINT_MODULUS)%Z ->
  fold_left (fun n hit => if negb (inside hit) then wrap (n + 1) else n) hs acc
  = (acc + Z.of_nat (List.length (filter (fun hs => negb (inside hs)) hs)))%Z.
Proof.
  induction hs as [| h hs IH]; intros acc H0 HM; simpl in *.
  - lia.
  - destruct (negb (inside h)); simpl.
    + rewrite wrap_small by lia. rewrite IH by lia. lia.
    + apply IH; lia.
Qed.

Lemma count_outside_fits d :
  (Z.of_nat (List.length (halfspaces d)) < UINT_MODULUS)%Z ->
  count_outside (halfspaces d) = Z.of_nat (outside_count d).
Proof.
  intros H. unfold count_outside, outside_count.
  rewrite fold_count_outside by lia. lia.
Qed.

Section Counters.
Context {C : Collaborators}.

Lemma m_oriented_flat m ds :
  m_oriented m ds = fold_left (add_member m) (participations ds) 0%Z.
Proof.
  unfold m_oriented, participations. generalize 0%Z.
  induction ds as [| d ds IH]; intros acc; simpl; [reflexivity |].
  rewrite fold_left_app, IH. f_equal.
  generalize acc. clear.
  induction (halfspaces d) as [| h hs IH]; intros acc; simpl; [reflexivity |].
  rewrite fold_left_app, IH. reflexivity.
Qed.

Lemma fold_add_member m l : forall acc,
  (0 <= acc < UINT_MODULUS)%Z ->
  fold_left (add_member m) l acc
  = wrap (acc + fold_right Z.add 0%Z
                  (map orientation (filter (fun om => mesh_eqb (mesh om) m) l))).
Proof.
  induction l as [| x l IH]; intros acc Hacc; simpl.
  - rewrite Z.add_0_r. symmetry. now apply wrap_small.
  - unfold add_member at 2. destruct (mesh_eqb (mesh x) m); simpl.
    + rewrite IH.
      * unfold wrap. rewrite Zplus_mod_idemp_l. f_equal. lia.
      * unfold wrap. apply Z.mod_pos_bound. unfold UINT_MODULUS. lia.
    + now apply IH.
Qed.

Lemma sum_orientation_bound l :
  (Z.abs (fold_right Z.add 0%Z (map orientation l)) <= Z.of_nat (List.length l))%Z.
Proof.
  induction l as [| x l IH]; simpl; [lia |].
  unfold orientation at 1. destruct (oriented x); lia.
Qed.

Lemma wrap_zero z :
  (Z.abs z < UINT_MODULUS)%Z -> (wrap z =? 0)%Z = (z =? 0)%Z.
Proof.
  intros H. unfold wrap.
  destruct (Z.eqb_spec z 0) as [-> | Hz].
  - reflexivity.
  - apply Z.eqb_neq. intros Hm.
    apply Z.mod_divide in Hm; [| unfold UINT_MODULUS; lia].
    destruct Hm as [q Hq]. unfold UINT_MODULUS in *. nia.
Qed.

Lemma m_oriented_zero m ds :
  (Z.of_nat (List.length (participations ds)) < UINT_MODULUS)%Z ->
  (m_oriented m ds =? 0)%Z = (net_orientation m ds =? 0)%Z.
Proof.
  intros H. rewrite m_oriented_flat, fold_add_member.
  - rewrite Z.add_0_l. apply wrap_zero. unfold net_orientation.
    pose proof (sum_orientation_bound
                  (filter (fun om => mesh_eqb (mesh om) m) (participations ds))).
    pose proof (filter_length_bound (fun om => mesh_eqb (mesh om) m)
                  (participations ds)).
    lia.
  - unfold UINT_MODULUS. lia.
Qed.

Lemma nested_meshes_cancelled ms ds :
  (Z.of_nat (List.length (participations ds)) < UINT_MODULUS)%Z ->
  nested_meshes ms ds = negb (cancelled_mesh ms ds).
Proof.
  intros H. unfold cancelled_mesh.
  induction ms as [| m ms IH]; simpl; [reflexivity |].
  rewrite m_oriented_zero by assumption.
  destruct (net_orientation m ds =? 0)%Z; simpl; [reflexivity | exact IH].
Qed.

End Counters.

(** The loop over the domains, when the flags tell the position that
    [dit_out] designates. *)
Lemma leb_of_nat n : (2 <=? Z.of_nat n)%Z = (2 <=? n)%nat.
Proof.
  destruct (Nat.leb_spec 2 n); [apply Z.leb_le | apply Z.leb_gt]; lia.
Qed.

Lemma nested_domains_flags p ds : forall pos,
  (forall i d, nth_error ds i = Some d -> outermost d = Nat.eqb (pos + i) p) ->
  Forall (fun d => (Z.of_nat (List.length (halfspaces d)) < UINT_MODULUS)%Z) ds ->
  nested_domains (At p) pos ds = Some (negb (two_outside ds)).
Proof.
  unfold two_outside.
  induction ds as [| d ds IH]; intros pos Hflag Hfit; [reflexivity |].
  inversion Hfit as [| ? ? Hd Hds]; subst.
  pose proof (Hflag 0 d eq_refl) as H0. rewrite Nat.add_0_r in H0.
  assert (Hrest : nested_domains (At p) (S pos) ds
                  = Some (negb (existsb (fun d0 => negb (outermost d0)
                                   && (2 <=? outside_count d0)%nat) ds))).
  { apply IH; [| assumption].
    intros i d' Hi. rewrite (Hflag (S i) d' Hi). f_equal. lia. }
  cbn [nested_domains iterator_neq existsb].
  rewrite Hrest, H0.
  destruct (pos =? p)%nat; cbn [negb andb orb].
  - reflexivity.
  - rewrite count_outside_fits, leb_of_nat by assumption.
    destruct (2 <=? outside_count d)%nat; reflexivity.
Qed.

(* ===================================================================== *)
(** ** The model of a successful run *)
(* ===================================================================== *)

Lemma unflagged_set_meshes ms g : unflagged g -> unflagged (set_meshes ms g).
Proof. trivial. Qed.

Lemma Forall_alter_nth {A : Type} (P : A -> Prop) f k l :
  (forall x, P x -> P (f x)) -> Forall P l -> Forall P (alter_nth f k l).
Proof.
  intros Hf HF. revert k.
  induction HF as [| x l Hx HF IH]; intros k; simpl; [constructor |].
  destruct k; constructor; auto.
Qed.

Lemma Forall_firstn {A : Type} (P : A -> Prop) n l :
  Forall P l -> Forall P (firstn n l).
Proof.
  intros HF. revert n.
  induction HF as [| x l Hx HF IH]; intros [| n]; simpl; constructor; auto.
Qed.

Lemma unflagged_resize n g :
  unflagged g -> unflagged (set_domains (resize n new_Domain (domains_ g)) g).
Proof.
  unfold unflagged, resize. simpl. intros H. apply Forall_app. split.
  - now apply Forall_firstn.
  - apply Forall_forall. intros d Hd. apply repeat_spec in Hd. now subst d.
Qed.

Lemma unflagged_alter f k g :
  (forall d, outermost (f d) = outermost d) ->
  unflagged g -> unflagged (set_domains (alter_nth f k (domains_ g)) g).
Proof.
  unfold unflagged. simpl. intros Hf H.
  apply Forall_alter_nth; [| assumption]. intros d Hd. now rewrite Hf.
Qed.

Section Model.
Context {L : LineScanner} {C : Collaborators}.
Variable geometry : string.

Lemma keeps_unflagged_header : keeps unflagged (header geometry).
Proof.
  unfold header, version_not_available.
  repeat keeps_step; apply keeps_modify_geom; intros; assumption.
Qed.

Lemma keeps_unflagged_sections : keeps unflagged (sections geometry).
Proof.
  apply keeps_sections.
  - intros. now apply unflagged_set_meshes.
  - intros. now apply unflagged_resize.
  - intros. now apply unflagged_alter.
  - intros. now apply unflagged_alter.
Qed.

Lemma classify_set_nested dit_out b g :
  classify dit_out (set_nested b g) = classify dit_out g.
Proof. reflexivity. Qed.

(** The analysis, when it runs to its end. *)
Lemma analysis_Ok s s' :
  analysis geometry s = Ok tt s' ->
  find_outermost 0 (domains_ (geom s))
    = (fst (find_outermost 0 (domains_ (geom s))), domains_ (geom s'))
  /\ meshes_ (geom s') = meshes_ (geom s)
  /\ classify (fst (find_outermost 0 (domains_ (geom s)))) (geom s')
     = Some (is_nested_ (geom s')).
Proof.
  unfold analysis, bind, get_geom, modify_geom, use, ifs_fail, ret, throw, undefined.
  destruct (find_outermost 0 (domains_ (geom s))) as [dit_out ds]. simpl.
  destruct (classify dit_out (set_domains ds (geom s))) as [nested |] eqn:Ec;
    [| discriminate].
  cbn [ifs geom cerr].
  destruct (failbit (ifs s)); [discriminate |].
  intros H; inversion H; subst; clear H. simpl.
  repeat split. rewrite classify_set_nested. exact Ec.
Qed.

(** A successful run on a destination without flagged domain: the domains
    of the model are those that the scan for the outermost domain leaves,
    started on domains without flag. *)
Lemma successful_run g err s' :
  read_geom geometry g err = Ok tt s' ->
  unflagged g ->
  exists ds0 dit_out,
    Forall (fun d => outermost d = false) ds0
    /\ find_outermost 0 ds0 = (dit_out, domains_ (geom s'))
    /\ classify dit_out (geom s') = Some (is_nested_ (geom s')).
Proof.
  unfold read_geom. destruct (open_file geometry) as [text |]; [| discriminate].
  unfold read_stream, after_header. intros H Hg.
  apply bind_Ok_inv in H as (u0 & s0 & Hh & H).
  apply bind_Ok_inv in H as (u1 & s1 & Hs & H).
  assert (H0 : unflagged (geom s0))
    by (eapply keeps_unflagged_header; [exact Hh | exact Hg]).
  assert (H1 : unflagged (geom s1))
    by (eapply keeps_unflagged_sections; [exact Hs | exact H0]).
  apply analysis_Ok in H as (Hf & _ & Hc).
  exists (domains_ (geom s1)), (fst (find_outermost 0 (domains_ (geom s1)))).
  repeat split; assumption.
Qed.

End Model.

(* ===================================================================== *)
(** ** The domains that the scan leaves *)
(* ===================================================================== *)

(** The flags after the scan, started on domains without flag: the only
    flagged position is the one the scan stopped at. *)
Lemma flags_after_scan (pre post : list Domain) d i x :
  Forall (fun d => outermost d = false) pre ->
  Forall (fun d => outermost d = false) post ->
  nth_error (pre ++ mark_outermost d :: post)%list i = Some x ->
  outermost x = Nat.eqb i (List.length pre).
Proof.
  intros Hpre Hpost H.
  apply nth_error_middle in H as [[Hlt Hx] | [[-> ->] | [Hgt Hx]]].
  - rewrite (@Forall_nth_error _ _ _ _ _ Hpre Hx). symmetry. apply Nat.eqb_neq. lia.
  - simpl. symmetry. apply Nat.eqb_refl.
  - rewrite (@Forall_nth_error _ _ _ _ _ Hpost Hx). symmetry. apply Nat.eqb_neq. lia.
Qed.

Lemma find_outermost_scanned ds0 dit_out ds :
  Forall (fun d => outermost d = false) ds0 ->
  find_outermost 0 ds0 = (dit_out, ds) ->
  scanned ds0 dit_out ds.
Proof.
  intros Hflags H.
  pose proof (find_outermost_spec ds0 0) as Hs. rewrite H in Hs.
  destruct dit_out as [| p].
  - destruct Hs as [-> Ho]. now constructor.
  - destruct Hs as (pre & d & post & -> & -> & -> & Ho & Hpre).
    apply Forall_app in Hflags as [Hf1 Hf2].
    inversion Hf2; subst. simpl. now constructor.
Qed.

Section Claims.
Context {L : LineScanner} {C : Collaborators}.
Variable geometry : string.

(** C6.  After a successful run on a destination that holds no flagged
    domain, at most one domain has [outermost == true]; if there is one, it
    is the first domain in parse order all of whose half spaces have
    inside=false, and every interface it refers to has
    [is_outermost == true]. *)
Theorem outermost_domain_unique_and_first g err s' :
  read_geom geometry g err = Ok tt s' ->
  unflagged g ->
  (forall i j di dj,
      nth_error (domains_ (geom s')) i = Some di ->
      nth_error (domains_ (geom s')) j = Some dj ->
      outermost di = true -> outermost dj = true -> i = j)
  /\ (forall i d,
         nth_error (domains_ (geom s')) i = Some d ->
         outermost d = true ->
         all_outside d
         /\ (forall j dj, j < i -> nth_error (domains_ (geom s')) j = Some dj ->
                          ~ all_outside dj)
         /\ (forall hs, In hs (halfspaces d) ->
                        is_outermost (interface hs) = true)).
Proof.
  intros Hrun Hg.
  destruct (@successful_run _ _ _ _ _ _ Hrun Hg) as (ds0 & dit_out & Hflags & Hfind & _).
  apply find_outermost_scanned in Hfind; [| exact Hflags].
  inversion Hfind as [ds Hf Ho E1 E2 E3 | pre d0 post Hpre Hpost Ho Hd E1 E2 E3];
    subst; clear Hfind.
  - (* no domain qualifies: no flag at all *)
    split.
    + intros i j di dj Hi _ Hdi _.
      rewrite (@Forall_nth_error _ _ _ _ _ Hf Hi) in Hdi. discriminate.
    + intros i d Hi Hd.
      rewrite (@Forall_nth_error _ _ _ _ _ Hf Hi) in Hd. discriminate.
  - split.
    + intros i j di dj Hi Hj Hdi Hdj.
      rewrite (@flags_after_scan _ _ _ _ _ Hpre Hpost Hi) in Hdi.
      rewrite (@flags_after_scan _ _ _ _ _ Hpre Hpost Hj) in Hdj.
      apply Nat.eqb_eq in Hdi, Hdj. congruence.
    + intros i d Hi Hflag.
      pose proof Hi as Hi'.
      rewrite (@flags_after_scan _ _ _ _ _ Hpre Hpost Hi) in Hflag.
      apply Nat.eqb_eq in Hflag. subst i.
      rewrite nth_error_app2 in Hi by lia. rewrite Nat.sub_diag in Hi.
      simpl in Hi. inversion Hi; subst d. clear Hi.
      split; [| split].
      * apply outer_all_outside. now rewrite outer_mark_outermost.
      * intros j dj Hlt Hj Hall.
        rewrite nth_error_app1 in Hj by assumption.
        apply outer_all_outside in Hall.
        rewrite (@Forall_nth_error _ _ _ _ _ Ho Hj) in Hall. discriminate.
      * intros hs Hin. simpl in Hin. apply in_map_iff in Hin as (h & <- & _).
        reflexivity.
Qed.

(** C3.  For the model of a successful run (on a destination that holds no
    flagged domain, and while the 32-bit counters of the classification do
    not wrap), the nested-geometry boolean is true unless (a) some
    non-outermost domain has two or more half spaces with inside=false, or
    (b) the net signed orientation of some mesh, +1 for orientation=true and
    -1 for orientation=false summed over every (domain, half space,
    interface member) triple it takes part in, equals zero; in both cases it
    is false. *)
Theorem nested_classification g err s' :
  read_geom geometry g err = Ok tt s' ->
  unflagged g ->
  counts_fit (domains_ (geom s')) ->
  is_nested_ (geom s')
  = negb (two_outside (domains_ (geom s'))
          || cancelled_mesh (meshes_ (geom s')) (domains_ (geom s'))).
Proof.
  intros Hrun Hg [Hhs Htriples].
  destruct (@successful_run _ _ _ _ _ _ Hrun Hg) as (ds0 & dit_out & Hflags & Hfind & Hc).
  apply find_outermost_scanned in Hfind; [| exact Hflags].
  unfold classify in Hc.
  remember (domains_ (geom s')) as ds' eqn:Eds.
  assert (Hnd : nested_domains dit_out 0 ds' = Some (negb (two_outside ds'))).
  { clear Htriples.
    inversion Hfind as [ds Hf Ho E1 E2 E3 | pre d0 post Hpre Hpost Ho Hd E1 E2 E3];
      subst.
    - destruct (domains_ (geom s')) as [| d ds]; [reflexivity | discriminate].
    - try rewrite <- E3. try rewrite <- E3 in Hhs.
      apply nested_domains_flags; [| exact Hhs].
      intros i d Hi. simpl. eapply flags_after_scan; eassumption. }
  rewrite Hnd in Hc. inversion Hc as [Hn]. clear Hc.
  destruct (two_outside ds'); simpl; [reflexivity |].
  now apply nested_meshes_cancelled.
Qed.

(** C10.  A domain without half space (its line holds no id, or nothing but
    the keyword [shared]) has all of its half spaces outside, vacuously; in
    the model of a successful run (on a destination that holds no flagged
    domain) such a domain is marked as the outermost one when no domain
    before it has all of its half spaces outside. *)
Theorem domain_without_ids_is_outermost g err s' i d :
  read_geom geometry g err = Ok tt s' ->
  unflagged g ->
  nth_error (domains_ (geom s')) i = Some d ->
  halfspaces d = [] ->
  (forall j dj, j < i -> nth_error (domains_ (geom s')) j = Some dj ->
                ~ all_outside dj) ->
  all_outside d
  /\ outermost d = true
  /\ (forall k its s, read_ids geometry k [] its s = Ok its s)
  /\ (forall k rest its s,
         read_ids geometry k ("shared" :: rest) its s
         = Ok its {| ifs := ifs s; geom := geom s;
                     cerr := cerr s ++ shared_notice geometry |}).
Proof.
  intros Hrun Hg Hi Hd Hfirst.
  assert (Hout : outer d = true) by now apply outer_no_halfspace.
  split; [now apply outer_all_outside |].
  split; [| split; [reflexivity | reflexivity]].
  destruct (@successful_run _ _ _ _ _ _ Hrun Hg) as (ds0 & dit_out & Hflags & Hfind & _).
  apply find_outermost_scanned in Hfind; [| exact Hflags].
  inversion Hfind as [ds Hf Ho E1 E2 E3 | pre d0 post Hpre Hpost Ho Hd0 E1 E2 E3];
    subst; clear Hfind.
  - rewrite (@Forall_nth_error _ _ _ _ _ Ho Hi) in Hout. discriminate.
  - rewrite <- E3 in Hi, Hfirst.
    rewrite (@flags_after_scan _ _ _ _ _ Hpre Hpost Hi). apply Nat.eqb_eq.
    apply nth_error_middle in Hi as [[Hlt Hx] | [[-> ->] | [Hgt Hx]]].
    + rewrite (@Forall_nth_error _ _ _ _ _ Ho Hx) in Hout. discriminate.
    + reflexivity.
    + exfalso. apply (Hfirst (List.length pre) (mark_outermost d0) Hgt).
      * rewrite nth_error_app2 by lia. rewrite Nat.sub_diag. reflexivity.
      * apply outer_all_outside. now rewrite outer_mark_outermost.
Qed.

End Claims.

(* ===================================================================== *)
(** ** The ids of a domain line and of an interface line *)
(* ===================================================================== *)

Lemma interface_sign_eq id :
  interface_sign id = (leading_minus id, unsigned_id id, is_shared id).
Proof.
  unfold interface_sign, leading_minus, unsigned_id, is_shared, is_sign.
  destruct (Ascii.eqb (char0 id) "-") eqn:Em; simpl; [reflexivity |].
  destruct (Ascii.eqb (char0 id) "+"); reflexivity.
Qed.

Lemma mesh_sign_eq id :
  mesh_sign id = (negb (leading_minus id), unsigned_id id).
Proof.
  unfold mesh_sign, leading_minus, unsigned_id, is_sign.
  destruct (Ascii.eqb_spec (char0 id) "-") as [E | E]; simpl.
  - rewrite E. reflexivity.
  - destruct (Ascii.eqb (char0 id) "+"); reflexivity.
Qed.

Lemma nth_error_alter_nth {A : Type} (f : A -> A) k l x :
  nth_error l k = Some x -> nth_error (alter_nth f k l) k = Some (f x).
Proof.
  revert k. induction l as [| y l IH]; intros [| k]; simpl; try discriminate.
  - intros H; inversion H; reflexivity.
  - apply IH.
Qed.

Section Ids.
Context {L : LineScanner} {C : Collaborators}.
Variable geometry : string.

Lemma read_ids_cons k id rest its :
  read_ids geometry k (id :: rest) its
  = if is_shared id then log (shared_notice geometry) ;; ret its
    else
      '(found, its') <- match_interfaces k (unsigned_id id) (leading_minus id)
                                         false its ;;
      if negb found then
        d <- domain_at k ;;
        throw (NonExistingDomain (domain_name d) (unsigned_id id))
      else read_ids geometry k rest its'.
Proof. simpl. rewrite interface_sign_eq. reflexivity. Qed.

(** The ids in front of the keyword [shared] are read one after the
    other. *)
Lemma read_ids_app k pre rest : forall its s its1 s1,
  Forall (fun x => is_shared x = false) pre ->
  read_ids geometry k pre its s = Ok its1 s1 ->
  read_ids geometry k (pre ++ rest) its s = read_ids geometry k rest its1 s1.
Proof.
  induction pre as [| x pre IH]; intros its s its1 s1 Hpre H.
  - simpl in H. inversion H; subst. reflexivity.
  - inversion Hpre as [| ? ? Hx Hpre']; subst.
    change ((x :: pre) ++ rest)%list with (x :: (pre ++ rest))%list.
    rewrite read_ids_cons in H |- *. rewrite Hx in H |- *.
    unfold bind in H |- *.
    destruct (match_interfaces k (unsigned_id x) (leading_minus x) false its s)
      as [[found its'] s2 | | |]; try discriminate.
    destruct found; simpl in H |- *.
    + now apply IH.
    + unfold domain_at, bind, get_geom, use, throw in H.
      destruct (nth_error (domains_ (geom s2)) k); discriminate.
Qed.

(** No interface has the name: nothing is found and nothing is written. *)
Lemma match_interfaces_none k id ins its : forall found s,
  Forall (fun it => interface_name it <> id) its ->
  match_interfaces k id ins found its s = Ok (found, its) s.
Proof.
  induction its as [| it its IH]; intros found s HF; simpl; [reflexivity |].
  inversion HF as [| ? ? Hit HF']; subst.
  apply String.eqb_neq in Hit. rewrite Hit.
  unfold bind. rewrite IH by assumption. reflexivity.
Qed.

(** Some interface of the name fails its check: the process ends there. *)
Lemma match_interfaces_unclosed k id ins its : forall found s,
  Exists (fun it => interface_name it = id /\ fst (check (members it)) = false) its ->
  exists it s',
    In it its /\ interface_name it = id
    /\ match_interfaces k id ins found its s = Exit 1 s'
    /\ cerr s' = cerr s ++ not_closed_message it.
Proof.
  induction its as [| it its IH]; intros found s HE; [inversion HE |].
  simpl.
  destruct (String.eqb_spec (interface_name it) id) as [Hn | Hn].
  - unfold check_interface.
    destruct (check (members it)) as [closed oms] eqn:Ec.
    destruct closed; simpl.
    + assert (HE' : Exists (fun it => interface_name it = id
                                      /\ fst (check (members it)) = false) its).
      { inversion HE as [? ? [_ Hc] | ? ? HE']; subst; [| exact HE'].
        rewrite Ec in Hc. discriminate. }
      destruct (IH true
                  {| ifs := ifs s;
                     geom := set_domains
                               (alter_nth
                                  (push_halfspace
                                     {| interface :=
                                          {| interface_name := interface_name it;
                                             members := oms;
                                             is_outermost := is_outermost it |};
                                        inside := ins |}) k (domains_ (geom s)))
                               (geom s);
                     cerr := cerr s |} HE')
        as (it' & s' & Hin & Hname & Hrun & Hcerr).
      exists it', s'.
      split; [now right |]. split; [exact Hname |]. split; [| exact Hcerr].
      unfold bind, modify_domain, modify_geom. rewrite Hrun. reflexivity.
    + exists it, {| ifs := ifs s; geom := geom s;
                    cerr := cerr s ++ not_closed_message it |}.
      split; [now left |]. split; [exact Hn |]. split; reflexivity.
  - assert (HE' : Exists (fun it => interface_name it = id
                                    /\ fst (check (members it)) = false) its).
    { inversion HE as [? ? [Hn' _] | ? ? HE']; subst; [contradiction | exact HE']. }
    destruct (IH found s HE') as (it' & s' & Hin & Hname & Hrun & Hcerr).
    exists it', s'.
    split; [now right |]. split; [exact Hname |]. split; [| exact Hcerr].
    unfold bind. rewrite Hrun. reflexivity.
Qed.

Lemma referenced_names its1 its2 id :
  map interface_name its1 = map interface_name its2 ->
  referenced its1 id = referenced its2 id.
Proof.
  unfold referenced. revert its2.
  induction its1 as [| a l1 IH]; intros [| b l2] H; simpl in *;
    try discriminate; [reflexivity |].
  inversion H as [[Hn Hl]]. rewrite Hn.
  destruct (String.eqb (interface_name b) (unsigned_id id)); simpl;
    rewrite ?Hn, (IH _ Hl); reflexivity.
Qed.

(** What the loop over the interfaces appends to the domain: one half space
    for each interface of the name, on the side asked for. *)
Lemma match_interfaces_pushes k id ins its : forall found s found' its' s' d,
  match_interfaces k id ins found its s = Ok (found', its') s' ->
  nth_error (domains_ (geom s)) k = Some d ->
  map interface_name its' = map interface_name its
  /\ exists d' added,
       nth_error (domains_ (geom s')) k = Some d'
       /\ halfspaces d' = (halfspaces d ++ added)%list
       /\ sides added
          = map (fun it => (interface_name it, ins))
                (filter (fun it => String.eqb (interface_name it) id) its).
Proof.
  induction its as [| it its IH]; intros found s found' its' s' d H Hd.
  - simpl in H. inversion H; subst. split; [reflexivity |].
    exists d, []. rewrite app_nil_r. auto.
  - simpl in H. cbn [filter].
    destruct (String.eqb (interface_name it) id) eqn:Hn.
    + unfold check_interface in H.
      destruct (check (members it)) as [closed oms].
      destruct closed; simpl in H; [| discriminate].
      apply bind_Ok_inv in H as (u & s1 & H1 & H).
      apply bind_Ok_inv in H as ([f1 its1] & s2 & H2 & H).
      unfold modify_domain, modify_geom in H1. inversion H1; subst s1. clear H1.
      eapply IH in H2 as (Hnames & d' & added & Hd' & Hhs & Hs);
        [| simpl; apply nth_error_alter_nth; exact Hd].
      inversion H; subst. clear H.
      split; [simpl; now rewrite Hnames |].
      exists d'. eexists. split; [exact Hd' |]. split.
      * rewrite Hhs. simpl. rewrite <- app_assoc. reflexivity.
      * simpl. now rewrite Hs.
    + apply bind_Ok_inv in H as ([f1 its1] & s2 & H2 & H).
      eapply IH in H2 as (Hnames & d' & added & Hd' & Hhs & Hs); [| exact Hd].
      inversion H; subst. clear H.
      split; [simpl; now rewrite Hnames |].
      exists d', added. auto.
Qed.

(** What the ids of a line append to the domain. *)
Lemma read_ids_pushes k ids : forall its s its' s' d,
  read_ids geometry k ids its s = Ok its' s' ->
  nth_error (domains_ (geom s)) k = Some d ->
  exists d' added,
    nth_error (domains_ (geom s')) k = Some d'
    /\ halfspaces d' = (halfspaces d ++ added)%list
    /\ sides added = flat_map (referenced its) (ids_before_shared ids).
Proof.
  induction ids as [| id ids IH]; intros its s its' s' d H Hd.
  - simpl in H. inversion H; subst. exists d, []. rewrite app_nil_r. auto.
  - rewrite read_ids_cons in H. cbn [ids_before_shared].
    destruct (is_shared id).
    + unfold bind, log, ret in H. inversion H; subst. simpl.
      exists d, []. rewrite app_nil_r. auto.
    + apply bind_Ok_inv in H as ([found its1] & s1 & H1 & H).
      destruct found; simpl in H.
      * eapply match_interfaces_pushes in H1
          as (Hnames & d1 & added1 & Hd1 & Hhs1 & Hs1); [| exact Hd].
        eapply IH in H as (d' & added & Hd' & Hhs & Hs); [| exact Hd1].
        exists d', (added1 ++ added)%list. split; [exact Hd' |]. split.
        -- rewrite Hhs, Hhs1. now rewrite app_assoc.
        -- unfold sides in *. rewrite map_app, Hs1, Hs. cbn [flat_map].
           f_equal. apply flat_map_ext. intros x.
           now apply referenced_names.
      * unfold domain_at, bind, get_geom, use, throw in H.
        destruct (nth_error (domains_ (geom s1)) k); discriminate.
Qed.

(** The members that the ids of an interface line give. *)
Lemma oriented_meshes_signs ids : forall s oms s',
  oriented_meshes ids s = Ok oms s' ->
  Forall2 (fun id om => mesh_name (mesh om) = unsigned_id id
                        /\ oriented om = negb (leading_minus id)) ids oms.
Proof.
  induction ids as [| id ids IH]; intros s oms s' H.
  - simpl in H. inversion H; subst. constructor.
  - simpl in H. rewrite mesh_sign_eq in H.
    apply bind_Ok_inv in H as (m & s1 & H1 & H).
    apply bind_Ok_inv in H as (oms' & s2 & H2 & H).
    inversion H; subst. clear H.
    constructor; [| eapply IH; exact H2].
    simpl. split; [| reflexivity].
    unfold geom_mesh, bind, get_geom in H1.
    destruct (find (fun m0 => String.eqb (mesh_name m0) (unsigned_id id))
                   (meshes_ (geom s))) as [m0 |] eqn:Ef; [| discriminate].
    inversion H1; subst.
    apply find_some in Ef as [_ Ef]. now apply String.eqb_eq in Ef.
Qed.

End Ids.

(* ===================================================================== *)
(** ** From the ids of a line to the whole run *)
(* ===================================================================== *)

Section Reach.
Context {L : LineScanner} {C : Collaborators}.
Variable geometry : string.

Lemma read_domains_split j m : forall k its s,
  read_domains geometry (j + m) k its s
  = bind (read_domains geometry j k its)
         (fun its' => read_domains geometry m (k + j) its') s.
Proof.
  induction j as [| j IH]; intros k its s.
  - simpl. unfold bind, ret. now rewrite Nat.add_0_r.
  - simpl. unfold bind.
    destruct (read_domain geometry k its s) as [its' s' | | |]; try reflexivity.
    rewrite IH. unfold bind.
    replace (S k + j) with (k + S j) by lia. reflexivity.
Qed.

(** Once the run has got to the ids of a line, its outcome is the one of
    these ids followed by the rest of the reader. *)
Lemma at_domain_line_run g err j its line s :
  at_domain_line geometry g err j its line s ->
  exists rest : list Interface -> M unit,
    read_geom geometry g err
    = bind (read_ids geometry j (words line) its) rest s.
Proof.
  intros (text & s1 & u & s2 & its0 & s3 & n & s4 & s5
          & Hopen & Hh & Hm & Hi & Hc & Hj & Hd & Hl).
  unfold read_geom. rewrite Hopen.
  unfold read_stream. unfold bind at 1. rewrite Hh.
  unfold after_header, sections.
  unfold bind at 1 2. unfold get_geom. unfold bind at 1. rewrite Hm.
  unfold bind at 1. rewrite Hi.
  unfold domain_section. unfold bind at 1. rewrite Hc.
  replace n with (j + S (n - S j)) by lia.
  unfold bind at 1. rewrite read_domains_split.
  unfold bind at 1. rewrite Hd.
  cbn [read_domains]. unfold bind at 1. unfold read_domain. unfold bind at 1.
  change (0 + j) with j. rewrite Hl.
  eexists (fun its' =>
             bind (bind (read_domains geometry (n - S j) (S j) its')
                        (fun _ => ret tt))
                  (fun _ => analysis geometry)).
  unfold bind.
  destruct (read_ids geometry j (words line) its s); reflexivity.
Qed.

Lemma at_domain_line_Exit g err j its line s c s' :
  at_domain_line geometry g err j its line s ->
  read_ids geometry j (words line) its s = Exit c s' ->
  read_geom geometry g err = Exit c s'.
Proof.
  intros Hat H. destruct (at_domain_line_run Hat) as (rest & ->).
  now apply bind_Exit.
Qed.

Lemma at_domain_line_Throw g err j its line s e s' :
  at_domain_line geometry g err j its line s ->
  read_ids geometry j (words line) its s = Throw e s' ->
  read_geom geometry g err = Throw e s'.
Proof.
  intros Hat H. destruct (at_domain_line_run Hat) as (rest & ->).
  now apply bind_Throw.
Qed.

End Reach.

(* ===================================================================== *)
(** ** Decimal numbers on the stream *)
(* ===================================================================== *)

Lemma span_digits_decimal d tail :
  isdigit (char0 tail) = false ->
  span_digits (NilEmpty.string_of_uint d ++ tail)
  = (NilEmpty.string_of_uint d, tail).
Proof.
  intros Ht. induction d; simpl; try (rewrite IHd; reflexivity).
  destruct tail as [| c r]; [reflexivity |]. simpl in *. now rewrite Ht.
Qed.

Lemma digits_value_acc d : forall p,
  digits_value (N.pos p) (NilEmpty.string_of_uint d)
  = N.pos (Pos.of_uint_acc d p).
Proof.
  induction d; intros p;
    cbn [NilEmpty.string_of_uint digits_value Pos.of_uint_acc];
    try reflexivity;
    rewrite <- IHd; f_equal;
    match goal with
    | |- context [digit_value ?c] =>
        let v := eval vm_compute in (digit_value c) in
        change (digit_value c) with v
    end; lia.
Qed.

Lemma digits_value_decimal d :
  digits_value 0 (NilEmpty.string_of_uint d) = N.of_uint d.
Proof.
  induction d; cbn [NilEmpty.string_of_uint digits_value];
    match goal with
    | |- context [digit_value ?c] =>
        let v := eval vm_compute in (digit_value c) in
        change (digit_value c) with v
    | _ => idtac
    end;
    cbn [N.mul N.add];
    try reflexivity; try exact IHd;
    rewrite digits_value_acc; reflexivity.
Qed.

Lemma to_uint_not_Nil m : N.to_uint m <> Decimal.Nil.
Proof.
  intros H. pose proof (DecimalN.Unsigned.of_to m) as Hm.
  rewrite H in Hm. simpl in Hm. subst m. discriminate.
Qed.

(** [ifs >> n] on the decimal writing of a number of the range of
    [unsigned] that no digit follows: the number is read, the stream is
    left behind it. *)
Lemma read_unsigned_name n tail :
  (0 <= n < UINT_MODULUS)%Z ->
  isdigit (char0 tail) = false ->
  read_unsigned None (stream_of (name n ++ tail)) = (Some n, stream_of tail).
Proof.
  intros Hn Ht. unfold name.
  pose proof (to_uint_not_Nil (Z.to_N n)) as Hnil.
  pose proof (DecimalN.Unsigned.of_to (Z.to_N n)) as Hof.
  pose proof (digits_value_decimal (N.to_uint (Z.to_N n))) as Hv.
  pose proof (@span_digits_decimal (N.to_uint (Z.to_N n)) tail Ht) as Hs.
  rewrite Hof in Hv.
  remember (N.to_uint (Z.to_N n)) as d eqn:Ed. clear Ed Hof.
  unfold read_unsigned, stream_of. cbn [failbit buf].
  destruct d; try (exfalso; now apply Hnil).
  all: cbn [NilEmpty.string_of_uint append skip_ws] in *.
  all: match goal with
       | |- context [isspace ?c] =>
           change (isspace c) with false; cbn iota;
           change (Ascii.eqb c "-") with false;
           change (Ascii.eqb c "+") with false; cbn iota
       end.
  all: rewrite Hs, Hv.
  all: replace (Z.of_N (Z.to_N n)) with n by lia.
  all: destruct (Z.leb_spec UINT_MODULUS n) as [Hge | Hlt]; [lia |].
  all: reflexivity.
Qed.

(* ===================================================================== *)
(** ** The claims about the header and about the id lists *)
(* ===================================================================== *)

Section MoreClaims.
Context {L : LineScanner} {C : Collaborators}.
Variable geometry : string.

(** What the reader does with the two numbers that line 134 extracts. *)
Lemma header_on_version g err text major minor i :
  open_file geometry = Some text ->
  read_version (stream_of text) = ((Some major, Some minor), i) ->
  failbit i = false ->
  (major = 1%Z /\ minor = 0%Z ->
   read_geom geometry g err
   = after_header geometry
       {| ifs := i; geom := set_version VERSION10 g;
          cerr := err ++ deprecated_file_notice geometry |})
  /\ (major = 1%Z /\ minor = 1%Z ->
      read_geom geometry g err
      = after_header geometry
          {| ifs := i; geom := set_version VERSION11 g; cerr := err |})
  /\ (~ (major = 1%Z /\ (minor = 0%Z \/ minor = 1%Z)) ->
      read_geom geometry g err
      = Throw (WrongFileFormat geometry)
          {| ifs := i; geom := g;
             cerr := err ++ "Domain Description version not available !" ++ nl |})
  /\ (forall s', read_geom geometry g err = Ok tt s' ->
        major = 1%Z
        /\ ((minor = 0%Z /\ version_id (geom s') = VERSION10)
            \/ (minor = 1%Z /\ version_id (geom s') = VERSION11))).
Proof.
  intros Hopen Hv Hi.
  pose proof (read_version_minor _ Hv) as Hrange.
  assert (Hrun : read_geom geometry g err
                 = if negb (major =? 1)%Z
                   then Throw (WrongFileFormat geometry)
                          {| ifs := i; geom := g;
                             cerr := err ++ "Domain Description version not available !" ++ nl |}
                   else if (1 <? minor)%Z
                   then Throw (WrongFileFormat geometry)
                          {| ifs := i; geom := g;
                             cerr := err ++ "Domain Description version not available !" ++ nl |}
                   else if (minor =? 0)%Z
                   then after_header geometry
                          {| ifs := i; geom := set_version VERSION10 g;
                             cerr := err ++ deprecated_file_notice geometry |}
                   else after_header geometry
                          {| ifs := i; geom := set_version VERSION11 g; cerr := err |}).
  { unfold read_geom. rewrite Hopen.
    unfold read_stream, header, version_not_available, bind, extract, ifs_fail,
      use, log, throw, modify_geom, ret.
    cbn [ifs geom cerr]. rewrite Hv. cbn [ifs geom cerr]. rewrite Hi.
    destruct (major =? 1)%Z; cbn [negb]; [| reflexivity].
    destruct (1 <? minor)%Z; [reflexivity |].
    destruct (minor =? 0)%Z; reflexivity. }
  split; [| split; [| split]].
  - intros [-> ->]. exact Hrun.
  - intros [-> ->]. exact Hrun.
  - intros Hno. rewrite Hrun.
    destruct (Z.eqb_spec major 1) as [-> | Hm]; cbn [negb]; [| reflexivity].
    destruct (Z.ltb_spec 1 minor) as [Hlt | Hle]; [reflexivity |].
    exfalso. apply Hno. split; [reflexivity | lia].
  - intros s' Hok. rewrite Hrun in Hok.
    destruct (Z.eqb_spec major 1) as [-> | Hm]; cbn [negb] in Hok; [| discriminate].
    destruct (Z.ltb_spec 1 minor) as [Hlt | Hle]; [discriminate |].
    split; [reflexivity |].
    destruct (Z.eqb_spec minor 0) as [-> | H0].
    + left. split; [reflexivity |].
      eapply keeps_version_after_header; [exact Hok | reflexivity].
    + right. split; [lia |].
      eapply keeps_version_after_header; [exact Hok | reflexivity].
Qed.

(** Line 134 on a file that starts with the header of the version
    major.minor. *)
Lemma read_version_header major minor rest :
  (forall tail, match_ "# Domain Description "
                  (stream_of ("# Domain Description " ++ tail)) = stream_of tail) ->
  (forall tail, match_ "." (stream_of ("." ++ tail)) = stream_of tail) ->
  (0 <= major < UINT_MODULUS)%Z ->
  (0 <= minor < UINT_MODULUS)%Z ->
  isdigit (char0 rest) = false ->
  read_version
    (stream_of ("# Domain Description " ++ name major ++ "." ++ name minor ++ rest))
  = ((Some major, Some minor), stream_of rest).
Proof.
  intros Hhead Hdot Hmajor Hminor Hrest. unfold read_version.
  rewrite Hhead.
  rewrite read_unsigned_name by (exact Hmajor || reflexivity).
  rewrite Hdot.
  rewrite read_unsigned_name by assumption.
  reflexivity.
Qed.

(** C9.  On a file that starts with [# Domain Description major.minor]
    (the two numbers in decimal writing, not followed by a digit; the
    matcher of IOUtils.H is supposed to consume the two literals of line
    134 where the stream starts with them) the reader goes on exactly for
    1.0 and 1.1: for 1.0 with the version tag VERSION10 (LEGACY) and the
    deprecation notice written to the error stream, for 1.1 with the tag
    VERSION11 (CURRENT); for any other version, 2.0 among them,
    [WrongFileFormat] is raised and the destination is as it was.  A model
    that is returned carries the tag of its header. *)
Theorem header_accepts_1_0_and_1_1 g err major minor rest :
  open_file geometry
  = Some ("# Domain Description " ++ name major ++ "." ++ name minor ++ rest) ->
  (forall tail, match_ "# Domain Description "
                  (stream_of ("# Domain Description " ++ tail)) = stream_of tail) ->
  (forall tail, match_ "." (stream_of ("." ++ tail)) = stream_of tail) ->
  (0 <= major < UINT_MODULUS)%Z ->
  (0 <= minor < UINT_MODULUS)%Z ->
  isdigit (char0 rest) = false ->
  (major = 1%Z /\ minor = 0%Z ->
   read_geom geometry g err
   = after_header geometry
       {| ifs := stream_of rest; geom := set_version VERSION10 g;
          cerr := err ++ deprecated_file_notice geometry |})
  /\ (major = 1%Z /\ minor = 1%Z ->
      read_geom geometry g err
      = after_header geometry
          {| ifs := stream_of rest; geom := set_version VERSION11 g;
             cerr := err |})
  /\ (~ (major = 1%Z /\ (minor = 0%Z \/ minor = 1%Z)) ->
      read_geom geometry g err
      = Throw (WrongFileFormat geometry)
          {| ifs := stream_of rest; geom := g;
             cerr := err ++ "Domain Description version not available !" ++ nl |})
  /\ (forall s', read_geom geometry g err = Ok tt s' ->
        major = 1%Z
        /\ ((minor = 0%Z /\ version_id (geom s') = VERSION10)
            \/ (minor = 1%Z /\ version_id (geom s') = VERSION11))).
Proof.
  intros Hopen Hhead Hdot Hmajor Hminor Hrest.
  eapply header_on_version; [exact Hopen | | reflexivity].
  now apply read_version_header.
Qed.

(** C2, amended.  When [read_geom] fails because the file cannot be opened
    or because the header is refused (lines 126-142), the destination
    geometry is left as it was before the call. *)
Theorem failure_in_header_keeps_destination g err :
  (open_file geometry = None
   \/ exists text e s1,
        open_file geometry = Some text
        /\ header geometry {| ifs := stream_of text; geom := g; cerr := err |}
           = Throw e s1) ->
  exists e s', read_geom geometry g err = Throw e s' /\ geom s' = g.
Proof.
  intros [Hopen | (text & e & s1 & Hopen & Hh)]; unfold read_geom; rewrite Hopen.
  - eexists. eexists. split; reflexivity.
  - exists e, s1. split.
    + unfold read_stream. now apply bind_Throw.
    + now apply header_Throw in Hh.
Qed.

(** An interface that is closed and that its check leaves as it is. *)
Lemma check_interface_closed it :
  check (members it) = (true, members it) -> check_interface it = (true, it).
Proof.
  unfold check_interface. intros ->. destruct it; reflexivity.
Qed.

(** Among interfaces that pass their check, the loop over the interfaces
    runs to its end, and has found one exactly when one carries the name. *)
Lemma match_interfaces_closed k id ins its :
  Forall (fun it => check (members it) = (true, members it)) its ->
  forall found s,
  exists s',
    match_interfaces k id ins found its s
    = Ok (found || existsb (fun it => String.eqb (interface_name it) id) its,
          its) s'.
Proof.
  induction 1 as [| it its Hit _ IH]; intros found s; simpl.
  - exists s. now rewrite orb_false_r.
  - destruct (String.eqb (interface_name it) id).
    + rewrite (check_interface_closed _ Hit). simpl.
      unfold bind at 1. unfold modify_domain, modify_geom.
      destruct (IH true {| ifs := ifs s;
                           geom := set_domains
                                     (alter_nth (push_halfspace
                                                   {| interface := it; inside := ins |})
                                                k (domains_ (geom s))) (geom s);
                           cerr := cerr s |}) as (s' & Hs').
      exists s'. unfold bind. rewrite Hs'. simpl. now rewrite orb_true_r.
    + destruct (IH found s) as (s' & Hs').
      exists s'. unfold bind. rewrite Hs'. reflexivity.
Qed.

Lemma sides_Forall n ins added :
  Forall (fun p : string * bool => fst p = n /\ snd p = ins) (sides added) ->
  Forall (fun h => interface_name (interface h) = n /\ inside h = ins) added.
Proof.
  induction added as [| h added IH]; simpl; intros H; [constructor |].
  inversion H; subst. constructor; auto.
Qed.

(** One id of a domain line whose sign is [ins] and whose name is carried by
    an interface, among interfaces that pass their check. *)
Lemma read_ids_one k id its s d :
  nth_error (domains_ (geom s)) k = Some d ->
  Forall (fun it => check (members it) = (true, members it)) its ->
  In (unsigned_id id) (map interface_name its) ->
  is_shared id = false ->
  exists s' d' added,
    read_ids geometry k [id] its s = Ok its s'
    /\ nth_error (domains_ (geom s')) k = Some d'
    /\ halfspaces d' = (halfspaces d ++ added)%list
    /\ added <> []
    /\ Forall (fun h => interface_name (interface h) = unsigned_id id
                        /\ inside h = leading_minus id) added.
Proof.
  intros Hd Hclosed Hin Hshared.
  destruct (match_interfaces_closed k (unsigned_id id) (leading_minus id)
              Hclosed false s) as (s1 & H1).
  assert (Hex : existsb (fun it => String.eqb (interface_name it) (unsigned_id id))
                        its = true).
  { apply existsb_exists. apply in_map_iff in Hin as (it & Hn & Hit).
    exists it. split; [exact Hit |]. now apply String.eqb_eq. }
  rewrite Hex in H1. simpl in H1.
  assert (Hrun : read_ids geometry k [id] its s = Ok its s1).
  { rewrite read_ids_cons, Hshared. unfold bind. rewrite H1. reflexivity. }
  destruct (read_ids_pushes _ _ _ _ _ Hrun Hd) as (d' & added & Hd' & Hhs & Hs).
  cbn [ids_before_shared flat_map] in Hs. rewrite Hshared in Hs.
  cbn [flat_map] in Hs. rewrite app_nil_r in Hs.
  exists s1, d', added.
  split; [exact Hrun |]. split; [exact Hd' |]. split; [exact Hhs |]. split.
  - intros ->. simpl in Hs. unfold referenced in Hs.
    apply existsb_exists in Hex as (it & Hit & Hn).
    assert (Hf : In it (filter (fun it0 => String.eqb (interface_name it0)
                                             (unsigned_id id)) its))
      by (apply filter_In; auto).
    destruct (filter (fun it0 => String.eqb (interface_name it0) (unsigned_id id))
                     its); [exact Hf | discriminate].
  - apply sides_Forall. rewrite Hs. unfold referenced.
    apply Forall_forall. intros p Hp.
    apply in_map_iff in Hp as (it & <- & Hit).
    apply filter_In in Hit as [_ Hn]. apply String.eqb_eq in Hn. auto.
Qed.

(** C7.  In the id list of a domain a leading ['-'] yields inside=true and a
    leading ['+'] or no sign yields inside=false for the interface the id
    names: the half spaces that a line appends are, id after id up to a bare
    [shared], those of the interfaces named by the id without its sign, with
    inside=true exactly for a leading ['-']; and the id [-n], [+n] or [n] of
    an interface that passes its check does append a half space for every
    interface of the name [n], with that side.  In the id list of an
    interface a leading ['-'] yields orientation=false and a leading ['+']
    or no sign yields orientation=true for the mesh the id names; and the id
    [-n], [+n] or [n] of a mesh that the geometry holds does give this mesh
    with that orientation. *)
Theorem sign_conventions :
  (forall k ids its s its' s' d,
      read_ids geometry k ids its s = Ok its' s' ->
      nth_error (domains_ (geom s)) k = Some d ->
      exists d' added,
        nth_error (domains_ (geom s')) k = Some d'
        /\ halfspaces d' = (halfspaces d ++ added)%list
        /\ sides added = flat_map (referenced its) (ids_before_shared ids))
  /\ (forall k n id ins its s d,
         nth_error (domains_ (geom s)) k = Some d ->
         Forall (fun it => check (members it) = (true, members it)) its ->
         In n (map interface_name its) ->
         (id = String "-" n /\ ins = true)
         \/ (id = String "+" n /\ ins = false)
         \/ (id = n /\ ins = false
             /\ is_sign (char0 n) = false /\ n <> "shared") ->
         exists s' d' added,
           read_ids geometry k [id] its s = Ok its s'
           /\ nth_error (domains_ (geom s')) k = Some d'
           /\ halfspaces d' = (halfspaces d ++ added)%list
           /\ added <> []
           /\ Forall (fun h => interface_name (interface h) = n
                               /\ inside h = ins) added)
  /\ (forall ids s oms s',
         oriented_meshes ids s = Ok oms s' ->
         Forall2 (fun id om => mesh_name (mesh om) = unsigned_id id
                               /\ oriented om = negb (leading_minus id)) ids oms)
  /\ (forall n id o s m,
         find (fun m0 => String.eqb (mesh_name m0) n) (meshes_ (geom s)) = Some m ->
         (id = String "-" n /\ o = false)
         \/ (id = String "+" n /\ o = true)
         \/ (id = n /\ o = true /\ is_sign (char0 n) = false) ->
         oriented_meshes [id] s = Ok [ {| mesh := m; oriented := o |} ] s).
Proof.
  split; [| split; [| split]].
  - intros k ids its s its' s' d. apply read_ids_pushes.
  - intros k n id ins its s d Hd Hclosed Hin Hid.
    assert (Hsign : unsigned_id id = n /\ leading_minus id = ins
                    /\ is_shared id = false).
    { destruct Hid as [[-> ->] | [[-> ->] | (-> & -> & Hs & Hn)]].
      - repeat split.
      - repeat split.
      - unfold unsigned_id, leading_minus, is_shared. rewrite Hs.
        apply String.eqb_neq in Hn. rewrite Hn.
        unfold is_sign in Hs. apply orb_false_elim in Hs as [Hm _].
        rewrite Hm. repeat split. }
    destruct Hsign as (Hu & Hl & Hshared).
    rewrite <- Hu in Hin.
    destruct (@read_ids_one k id its s d Hd Hclosed Hin Hshared)
      as (s' & d' & added & H).
    rewrite Hu, Hl in H. exists s', d', added. exact H.
  - apply oriented_meshes_signs.
  - intros n id o s m Hfind Hid.
    assert (Hsign : mesh_sign id = (o, n)).
    { destruct Hid as [[-> ->] | [[-> ->] | (-> & -> & Hs)]].
      - reflexivity.
      - reflexivity.
      - unfold mesh_sign. now rewrite Hs. }
    simpl. rewrite Hsign.
    unfold geom_mesh, get_geom. unfold bind. rewrite Hfind. reflexivity.
Qed.

(** C1, amended.  When the run of [read_geom] gets to an id of a domain line
    that names an interface whose closure check fails even after its repair
    pass, the reader writes "Interface ... is not closed !" to the error
    stream and ends the process with [exit(1)]; no error is raised to the
    caller. *)
Theorem unclosed_interface_ends_process g err j its line s pre id post its1 s1 :
  at_domain_line geometry g err j its line s ->
  words line = (pre ++ id :: post)%list ->
  Forall (fun x => is_shared x = false) pre ->
  is_shared id = false ->
  read_ids geometry j pre its s = Ok its1 s1 ->
  Exists (fun it => interface_name it = unsigned_id id
                    /\ fst (check (members it)) = false) its1 ->
  exists it s',
    In it its1 /\ interface_name it = unsigned_id id
    /\ read_geom geometry g err = Exit 1 s'
    /\ cerr s' = cerr s1 ++ not_closed_message it.
Proof.
  intros Hat Hline Hpre Hid Hrun HE.
  destruct (match_interfaces_unclosed j (leading_minus id) false s1 HE)
    as (it & s' & Hin & Hn & Hm & Hc).
  exists it, s'. split; [exact Hin |]. split; [exact Hn |]. split; [| exact Hc].
  eapply at_domain_line_Exit; [exact Hat |].
  rewrite Hline.
  erewrite read_ids_app; [| exact Hpre | exact Hrun].
  rewrite read_ids_cons, Hid. now apply bind_Exit.
Qed.

(** C8, amended.  When the run of [read_geom] gets to an id of a domain line
    that matches no interface name - no bare [shared] stands before it on
    the line, and the ids before it were resolved to closed interfaces - the
    reader raises [NonExistingDomain] with the name of the domain and the id
    without its sign; no model is returned. *)
Theorem unknown_interface_reference g err j its line s pre id post its1 s1 d :
  at_domain_line geometry g err j its line s ->
  words line = (pre ++ id :: post)%list ->
  Forall (fun x => is_shared x = false) pre ->
  is_shared id = false ->
  read_ids geometry j pre its s = Ok its1 s1 ->
  Forall (fun it => interface_name it <> unsigned_id id) its1 ->
  nth_error (domains_ (geom s1)) j = Some d ->
  read_geom geometry g err
  = Throw (NonExistingDomain (domain_name d) (unsigned_id id)) s1.
Proof.
  intros Hat Hline Hpre Hid Hrun Hnone Hd.
  eapply at_domain_line_Throw; [exact Hat |].
  rewrite Hline.
  erewrite read_ids_app; [| exact Hpre | exact Hrun].
  rewrite read_ids_cons, Hid.
  unfold bind. rewrite match_interfaces_none by assumption. simpl.
  unfold domain_at, bind, get_geom, use, throw, ret. rewrite Hd. reflexivity.
Qed.

End MoreClaims.

(* ===================================================================== *)
(** ** Runs of the reader *)
(* ===================================================================== *)

(** C1, as stated, fails: the patch is an open surface, its interface does
    not pass the check, and the reader ends the process instead of raising
    an error. *)
Lemma open_interface_exits :
  fst (check_and_repair (members patch_interface)) = false
  /\ exists s, run "/head/open.geom" empty_Geometry = Exit 1 s
               /\ cerr s = not_closed_message patch_interface
  /\ forall e s, run "/head/open.geom" empty_Geometry <> Throw e s.
Proof.
  split; [reflexivity |].
  eexists. split; [vm_compute; reflexivity |].
  split; [reflexivity |].
  intros e s H. vm_compute in H. discriminate.
Qed.

Lemma unclosed_interface_ends_process_witness :
  exists it s',
    In it [patch_interface] /\ interface_name it = "Patch"
    /\ run "/head/open.geom" empty_Geometry = Exit 1 s'
    /\ cerr s' = not_closed_message it.
Proof.
  apply (@unclosed_interface_ends_process the_scanner the_world
           "/head/open.geom" empty_Geometry "" 0
           [patch_interface] " -Patch" at_patch_line
           [] "-Patch" [] [patch_interface] at_patch_line).
  - unfold at_domain_line. do 9 eexists.
    split; [reflexivity |].
    split; [vm_compute; reflexivity |].
    split; [vm_compute; reflexivity |].
    split; [vm_compute; reflexivity |].
    split; [vm_compute; reflexivity |].
    split; [lia |].
    split; [reflexivity | vm_compute; reflexivity].
  - reflexivity.
  - constructor.
  - reflexivity.
  - reflexivity.
  - constructor. split; reflexivity.
Defined.

(** C2, as stated, fails: the reference to [Ventricle] makes the reader
    raise, and the destination, empty before the call, holds the version
    tag, the mesh and the two domains that were written until then. *)
Lemma failed_parse_leaves_partial_model :
  exists s,
    run "/head/ventricle.geom" empty_Geometry
    = Throw (NonExistingDomain "Brain" "Ventricle") s
    /\ geom s <> empty_Geometry
    /\ version_id (geom s) = VERSION11
    /\ List.length (meshes_ (geom s)) = 1
    /\ map domain_name (domains_ (geom s)) = ["Air"; "Brain"].
Proof.
  eexists. split; [vm_compute; reflexivity |].
  split; [discriminate |]. repeat split.
Qed.

Lemma failure_in_header_keeps_destination_witness :
  exists e s',
    run "/head/version2.geom" empty_Geometry = Throw e s'
    /\ geom s' = empty_Geometry.
Proof.
  apply (failure_in_header_keeps_destination (L := the_scanner) (C := the_world)
           "/head/version2.geom" empty_Geometry "").
  right. eexists. eexists. eexists.
  split; [reflexivity | vm_compute; reflexivity].
Defined.

Lemma nested_classification_witness :
  exists s',
    run "/head/nested.geom" empty_Geometry = Ok tt s'
    /\ is_nested_ (geom s')
       = negb (two_outside (domains_ (geom s'))
               || @cancelled_mesh the_world (meshes_ (geom s')) (domains_ (geom s'))).
Proof.
  assert (Hrun : exists s', run "/head/nested.geom" empty_Geometry = Ok tt s'
                            /\ counts_fit (domains_ (geom s'))).
  { eexists. split; [vm_compute; reflexivity |].
    split; [repeat constructor | vm_compute; reflexivity]. }
  destruct Hrun as (s' & Hrun & Hfit).
  exists s'. split; [exact Hrun |].
  apply (nested_classification (L := the_scanner) (C := the_world)
           "/head/nested.geom" "" Hrun); [constructor | exact Hfit].
Defined.

(** C4: no domain of this description lies outside of all its interfaces.
    The scan for the outermost domain then never assigns [dit_out], and the
    classification compares it with the first domain all the same. *)
Theorem unassigned_iterator_is_compared :
  run "/head/bounded.geom" empty_Geometry = Undefined
  /\ (forall ds, Forall (fun d => outer d = false) ds ->
                 find_outermost 0 ds = (Unassigned, ds))
  /\ (forall d ds, nested_domains Unassigned 0 (d :: ds) = None).
Proof.
  split; [vm_compute; reflexivity |]. split; [| reflexivity].
  intros ds. generalize 0.
  induction ds as [| d ds IH]; intros pos HF; simpl; [reflexivity |].
  inversion HF as [| ? ? Hd HF']; subst. rewrite Hd, IH by assumption.
  reflexivity.
Qed.

(** C5: after [MeshFile] and its path, control runs on into the code of the
    [Meshes] form.  The count of meshes is read where the keyword
    [Interfaces] stands, the stream fails, the meshes of the merged file are
    replaced by the import of an empty list, and the description is
    refused. *)
Theorem MeshFile_runs_into_Meshes :
  (forall (L : LineScanner) (C : Collaborators) path s i,
      match_alternative ["MeshFile"; "Meshes"] (skip_comments "#" (ifs s)) = (0%Z, i) ->
      mesh_section path s
      = bind (case_MeshFile path) (fun _ => case_Meshes path)
             {| ifs := i; geom := geom s; cerr := cerr s |})
  /\ exists s,
       run "/head/meshfile.geom" empty_Geometry
       = Throw (WrongFileFormat "/head/meshfile.geom") s
       /\ meshes_ (geom s) = []
       /\ failbit (ifs s) = true.
Proof.
  split.
  - intros L C path s i H. unfold mesh_section, bind at 1, extract.
    rewrite H. reflexivity.
  - eexists. split; [vm_compute; reflexivity |]. split; reflexivity.
Qed.

Lemma outermost_domain_unique_and_first_witness :
  exists s',
    run "/head/nested.geom" empty_Geometry = Ok tt s'
    /\ (forall i j di dj,
           nth_error (domains_ (geom s')) i = Some di ->
           nth_error (domains_ (geom s')) j = Some dj ->
           outermost di = true -> outermost dj = true -> i = j)
    /\ (forall i d,
           nth_error (domains_ (geom s')) i = Some d ->
           outermost d = true ->
           all_outside d
           /\ (forall j dj, j < i -> nth_error (domains_ (geom s')) j = Some dj ->
                            ~ all_outside dj)
           /\ (forall hs, In hs (halfspaces d) ->
                          is_outermost (interface hs) = true)).
Proof.
  assert (Hrun : exists s', run "/head/nested.geom" empty_Geometry = Ok tt s')
    by (eexists; vm_compute; reflexivity).
  destruct Hrun as (s' & Hrun).
  exists s'. split; [exact Hrun |].
  apply (outermost_domain_unique_and_first (L := the_scanner) (C := the_world)
           "/head/nested.geom" "" Hrun).
  constructor.
Defined.

(** C8, as stated, fails: [Ventricle] stands in the id list of the domain
    [Brain], is not the keyword [shared] and names no interface, yet it is
    never looked up because it stands behind [shared]: the model is
    returned. *)
Lemma shared_hides_unknown_interface :
  In "Ventricle" (words " -Skull shared Ventricle")
  /\ is_shared "Ventricle" = false
  /\ exists s,
       run "/head/shared.geom" empty_Geometry = Ok tt s
       /\ map domain_name (domains_ (geom s)) = ["Air"; "Brain"].
Proof.
  split; [vm_compute; auto |]. split; [reflexivity |].
  eexists. split; [vm_compute; reflexivity | reflexivity].
Qed.

Lemma unknown_interface_reference_witness :
  run "/head/ventricle.geom" empty_Geometry
  = Throw (NonExistingDomain "Brain" "Ventricle") after_skull_id.
Proof.
  apply (@unknown_interface_reference the_scanner the_world
           "/head/ventricle.geom" empty_Geometry "" 1
           [skull_interface] " -Skull -Ventricle" at_ventricle_line
           ["-Skull"] "-Ventricle" [] [skull_interface] after_skull_id
           {| domain_name := "Brain";
              halfspaces := [ {| interface := skull_interface; inside := true |} ];
              outermost := false |}).
  - unfold at_domain_line. do 9 eexists.
    split; [reflexivity |].
    split; [vm_compute; reflexivity |].
    split; [vm_compute; reflexivity |].
    split; [vm_compute; reflexivity |].
    split; [vm_compute; reflexivity |].
    split; [lia |].
    split; [vm_compute; reflexivity | vm_compute; reflexivity].
  - reflexivity.
  - repeat constructor.
  - reflexivity.
  - vm_compute; reflexivity.
  - constructor; [simpl; discriminate | constructor].
  - reflexivity.
Defined.

Lemma sign_conventions_witness :
  exists s' d' added,
    read_ids (C := the_world) "/head/ventricle.geom" 1 ["-Skull"]
      [skull_interface] at_ventricle_line = Ok [skull_interface] s'
    /\ nth_error (domains_ (geom s')) 1 = Some d'
    /\ halfspaces d' = (halfspaces brain_domain ++ added)%list
    /\ added <> []
    /\ Forall (fun h => interface_name (interface h) = "Skull"
                        /\ inside h = true) added.
Proof.
  apply (proj1 (proj2 (sign_conventions (C := the_world) "/head/ventricle.geom"))
               1 "Skull" "-Skull" true [skull_interface] at_ventricle_line
               brain_domain).
  - reflexivity.
  - constructor; [vm_compute; reflexivity | constructor].
  - left. reflexivity.
  - left. split; reflexivity.
Defined.

Lemma header_accepts_1_0_and_1_1_witness :
  run "/head/version2.geom" empty_Geometry
  = Throw (WrongFileFormat "/head/version2.geom")
      {| ifs := stream_of nl; geom := empty_Geometry;
         cerr := "Domain Description version not available !" ++ nl |}
  /\ run "/head/legacy.geom" empty_Geometry
     = after_header (L := the_scanner) (C := the_world) "/head/legacy.geom"
         {| ifs := snd (read_version (L := the_scanner) (stream_of legacy_geom));
            geom := set_version VERSION10 empty_Geometry;
            cerr := deprecated_file_notice "/head/legacy.geom" |}.
Proof.
  split.
  - apply (@header_accepts_1_0_and_1_1 the_scanner the_world
             "/head/version2.geom" empty_Geometry "" 2%Z 0%Z nl);
      try reflexivity; try (unfold UINT_MODULUS; lia).
  - apply (@header_accepts_1_0_and_1_1 the_scanner the_world
             "/head/legacy.geom" empty_Geometry "" 1%Z 0%Z
             (buf (snd (read_version (L := the_scanner) (stream_of legacy_geom)))));
      try reflexivity; try (unfold UINT_MODULUS; lia).
Defined.

Lemma domain_without_ids_is_outermost_witness :
  exists s' d,
    run "/head/vacuous.geom" empty_Geometry = Ok tt s'
    /\ nth_error (domains_ (geom s')) 1 = Some d
    /\ domain_name d = "Air"
    /\ all_outside d
    /\ outermost d = true.
Proof.
  assert (Hrun : exists s' d,
             run "/head/vacuous.geom" empty_Geometry = Ok tt s'
             /\ nth_error (domains_ (geom s')) 1 = Some d
             /\ domain_name d = "Air"
             /\ halfspaces d = []
             /\ (forall j dj, j < 1 -> nth_error (domains_ (geom s')) j = Some dj ->
                              ~ all_outside dj)).
  { eexists. eexists. split; [vm_compute; reflexivity |].
    split; [reflexivity |]. split; [reflexivity |]. split; [reflexivity |].
    intros j dj Hj Hn Ha. destruct j; [| lia].
    simpl in Hn. inversion Hn; subst dj.
    specialize (Ha _ (or_introl eq_refl)). discriminate. }
  destruct Hrun as (s' & d & Hrun & Hd & Hname & Hhs & Hfirst).
  exists s', d. split; [exact Hrun |]. split; [exact Hd |]. split; [exact Hname |].
  destruct (domain_without_ids_is_outermost (L := the_scanner) (C := the_world)
              "/head/vacuous.geom" "" Hrun (Forall_nil _) Hd Hhs Hfirst)
    as (Hall & Hout & _).
  split; assumption.
Defined.

(* ===================================================================== *)
(** ** The scenarios of the specification *)
(* ===================================================================== *)

(** Two nested interfaces: the model is nested and its outermost domain is
    [Air]. *)
Example nested_interfaces :
  exists s, run "/head/nested.geom" empty_Geometry = Ok tt s
            /\ is_nested_ (geom s) = true
            /\ map (fun d => (domain_name d, outermost d)) (domains_ (geom s))
               = [("Brain", false); ("Bone", false); ("Air", true)].
Proof. eexists. split; [vm_compute; reflexivity | split; reflexivity]. Qed.

(** A mesh used once as it is and once flipped: the model is not nested. *)
Example cancelled_orientations :
  exists s, run "/head/cancelled.geom" empty_Geometry = Ok tt s
            /\ is_nested_ (geom s) = false
            /\ two_outside (domains_ (geom s)) = false
            /\ @cancelled_mesh the_world (meshes_ (geom s)) (domains_ (geom s)) = true.
Proof. eexists. split; [vm_compute; reflexivity | repeat split; reflexivity]. Qed.

(** A domain other than the outermost one with two outside half spaces: the
    model is not nested. *)
Example two_outside_half_spaces :
  exists s, run "/head/two_outside.geom" empty_Geometry = Ok tt s
            /\ is_nested_ (geom s) = false
            /\ two_outside (domains_ (geom s)) = true.
Proof. eexists. split; [vm_compute; reflexivity | repeat split; reflexivity]. Qed.

(** The former format is read with its deprecation notice. *)
Example legacy_format :
  exists s, run "/head/legacy.geom" empty_Geometry = Ok tt s
            /\ version_id (geom s) = VERSION10
            /\ cerr s = deprecated_file_notice "/head/legacy.geom"
            /\ map (fun d => (domain_name d, outermost d)) (domains_ (geom s))
               = [("Brain", false); ("Bone", false); ("Air", true)].
Proof. eexists. split; [vm_compute; reflexivity | repeat split; reflexivity]. Qed.

(** A header of version 2.0 is refused and nothing is written. *)
Example version_2_0 :
  exists s, run "/head/version2.geom" empty_Geometry
            = Throw (WrongFileFormat "/head/version2.geom") s
            /\ geom s = empty_Geometry.
Proof. eexists. split; [vm_compute; reflexivity | reflexivity]. Qed.

(** A file that cannot be opened. *)
Example no_such_file :
  exists s, run "/head/none.geom" empty_Geometry
            = Throw (OpenError "/head/none.geom") s
            /\ geom s = empty_Geometry.
Proof. eexists. split; reflexivity. Qed.

(** Paths of meshes are resolved against the directory of the geometry
    file. *)
Example path_resolution :
  dir "/a/b/g.geom" = "/a/b/"
  /\ fullname "c.vtk" (dir "/a/b/g.geom") = "/a/b/c.vtk"
  /\ fullname "/x/c.vtk" (dir "/a/b/g.geom") = "/x/c.vtk"
  /\ dir "g.geom" = "".
Proof. repeat split. Qed.

(* ===================================================================== *)
(** ** The stages of a run *)
(* ===================================================================== *)

Section Stages.
Context {L : LineScanner} {C : Collaborators}.
Variable geometry : string.

(** A run that returns went through the header, the sections and the
    analysis. *)
Lemma run_stages g err s' :
  read_geom geometry g err = Ok tt s' ->
  exists text s0 s1,
    open_file geometry = Some text
    /\ header geometry {| ifs := stream_of text; geom := g; cerr := err |}
       = Ok tt s0
    /\ sections geometry s0 = Ok tt s1
    /\ analysis geometry s1 = Ok tt s'.
Proof.
  unfold read_geom. destruct (open_file geometry) as [text |]; [| discriminate].
  unfold read_stream, after_header. intros H.
  apply bind_Ok_inv in H as ([] & s0 & Hh & H).
  apply bind_Ok_inv in H as ([] & s1 & Hs & H).
  exists text, s0, s1. auto.
Qed.

(** The sections that ran to their end. *)
Lemma sections_stages s s' :
  sections geometry s = Ok tt s' ->
  exists u sa its sb n sc its',
    (if VersionId_eqb (version_id (geom s)) VERSION11
     then mesh_section (dir geometry) else ret tt) s = Ok u sa
    /\ interface_section geometry (dir geometry) sa = Ok its sb
    /\ domain_count geometry sb = Ok n sc
    /\ read_domains geometry n 0 its sc = Ok its' s'.
Proof.
  unfold sections. intros H.
  apply bind_Ok_inv in H as (g0 & s0 & Hg & H).
  unfold get_geom in Hg. inversion Hg; subst g0 s0. clear Hg.
  apply bind_Ok_inv in H as (u & sa & Hm & H).
  apply bind_Ok_inv in H as (its & sb & Hi & H).
  unfold domain_section in H.
  apply bind_Ok_inv in H as (n & sc & Hc & H).
  apply bind_Ok_inv in H as (its' & sd & Hd & H).
  unfold ret in H. inversion H; subst sd.
  exists u, sa, its, sb, n, sc, its'. auto.
Qed.

(** A property of the destination that the header, the sections and the
    analysis keep holds of the model that is returned. *)
Lemma keeps_read_geom (P : Geometry -> Prop) g err s' :
  keeps P (header geometry) ->
  keeps P (sections geometry) ->
  keeps P (analysis geometry) ->
  read_geom geometry g err = Ok tt s' ->
  P g -> P (geom s').
Proof.
  intros Kh Ks Ka Hrun Hg.
  apply run_stages in Hrun as (text & s0 & s1 & _ & Hh & Hs & Ha).
  eapply Ka; [exact Ha |]. eapply Ks; [exact Hs |]. eapply Kh; [exact Hh |].
  exact Hg.
Qed.

Lemma keeps_header (P : Geometry -> Prop) :
  (forall v g, P g -> P (set_version v g)) -> keeps P (header geometry).
Proof.
  intros HP. unfold header, version_not_available.
  repeat keeps_step; apply keeps_modify_geom; intros; now apply HP.
Qed.

Lemma keeps_domain_line (P : Geometry -> Prop) k :
  (forall n k g, P g -> P (set_domains (alter_nth (set_domain_name n) k (domains_ g)) g)) ->
  keeps P (domain_line k).
Proof.
  intros HP. unfold domain_line, modify_domain, domain_at.
  repeat keeps_step; apply keeps_modify_geom; intros; now apply HP.
Qed.

Lemma keeps_domain_count (P : Geometry -> Prop) :
  (forall n g, P g -> P (set_domains (resize n new_Domain (domains_ g)) g)) ->
  keeps P (domain_count geometry).
Proof.
  intros HP. unfold domain_count.
  repeat keeps_step; apply keeps_modify_geom; intros; now apply HP.
Qed.

End Stages.

(* ===================================================================== *)
(** ** Every half space of the model went through the check *)
(* ===================================================================== *)

Section Closure.
Context {L : LineScanner} {C : Collaborators}.
Variable geometry : string.

Lemma all_checked_push hs k g :
  checked hs -> all_checked g ->
  all_checked (set_domains (alter_nth (push_halfspace hs) k (domains_ g)) g).
Proof.
  unfold all_checked. simpl. intros Hhs H.
  apply Forall_alter_nth; [| exact H].
  intros d Hd. simpl. apply Forall_app. split; [exact Hd |].
  constructor; [exact Hhs | constructor].
Qed.

Lemma all_checked_name n k g :
  all_checked g ->
  all_checked (set_domains (alter_nth (set_domain_name n) k (domains_ g)) g).
Proof.
  unfold all_checked. simpl. intros H.
  apply Forall_alter_nth; [| exact H]. intros d Hd. exact Hd.
Qed.

Lemma all_checked_resize n g :
  all_checked g ->
  all_checked (set_domains (resize n new_Domain (domains_ g)) g).
Proof.
  unfold all_checked, resize. simpl. intros H. apply Forall_app. split.
  - now apply Forall_firstn.
  - apply Forall_forall. intros d Hd. apply repeat_spec in Hd. subst d.
    constructor.
Qed.

Lemma keeps_checked_match_interfaces k id ins its :
  forall found, keeps all_checked (match_interfaces k id ins found its).
Proof.
  induction its as [| it its IH]; intros found; simpl; [auto with keeps |].
  destruct (String.eqb (interface_name it) id); [| repeat keeps_step; apply IH].
  unfold check_interface.
  destruct (check (members it)) as [closed oms] eqn:Ec.
  destruct closed; simpl; [| repeat keeps_step].
  apply keeps_bind; [| intros _; repeat keeps_step; apply IH].
  unfold modify_domain. apply keeps_modify_geom. intros g Hg.
  apply all_checked_push; [| exact Hg].
  exists (members it). exact Ec.
Qed.

Lemma keeps_checked_read_ids k ids :
  forall its, keeps all_checked (read_ids geometry k ids its).
Proof.
  induction ids as [| id ids IH]; intros its; simpl; [auto with keeps |].
  destruct (interface_sign id) as [[ins id'] shared].
  destruct shared; [repeat keeps_step |].
  apply keeps_bind; [apply keeps_checked_match_interfaces |].
  intros [found its']. destruct found; simpl; [apply IH |].
  unfold domain_at. repeat keeps_step.
Qed.

Lemma keeps_checked_read_domains n :
  forall k its, keeps all_checked (read_domains geometry n k its).
Proof.
  induction n as [| n IH]; intros k its; simpl; [auto with keeps |].
  apply keeps_bind; [| intros its'; apply IH].
  unfold read_domain. apply keeps_bind.
  - apply keeps_domain_line. intros. now apply all_checked_name.
  - intros line. apply keeps_checked_read_ids.
Qed.

Lemma keeps_checked_sections : keeps all_checked (sections geometry).
Proof.
  unfold sections, domain_section.
  repeat keeps_step.
  - apply keeps_mesh_section. intros ms g Hg. exact Hg.
  - apply keeps_interface_section. intros ms g Hg. exact Hg.
  - apply keeps_domain_count. intros. now apply all_checked_resize.
  - apply keeps_checked_read_domains.
Qed.

Lemma checked_set_to_outermost hit :
  checked hit ->
  checked {| interface := set_to_outermost (interface hit); inside := inside hit |}.
Proof. intros [oms H]. exists oms. exact H. Qed.

Lemma find_outermost_checked ds : forall pos,
  Forall (fun d => Forall checked (halfspaces d)) ds ->
  Forall (fun d => Forall checked (halfspaces d)) (snd (find_outermost pos ds)).
Proof.
  induction ds as [| d ds IH]; intros pos H; simpl; [constructor |].
  inversion H as [| ? ? Hd Hds]; subst.
  destruct (outer d).
  - simpl. constructor; [| exact Hds]. simpl.
    apply Forall_forall. intros hs Hin. apply in_map_iff in Hin as (h & <- & Hh).
    apply checked_set_to_outermost.
    rewrite Forall_forall in Hd. now apply Hd.
  - specialize (IH (S pos) Hds).
    destruct (find_outermost (S pos) ds) as [dit_out ds']. simpl in *.
    constructor; assumption.
Qed.

Lemma keeps_checked_analysis : keeps all_checked (analysis geometry).
Proof.
  intros s a s' H Hs. destruct a.
  apply analysis_Ok in H as (Hf & _ & _).
  unfold all_checked in *.
  pose proof (find_outermost_checked 0 Hs) as Hc.
  rewrite Hf in Hc. exact Hc.
Qed.

(** X1.  In the model of a successful run, every half space of every domain
    holds an interface whose members are those that a check which passed
    left (every half space that the destination held before is supposed to
    be so): the reader appends a half space only behind [iit->check()]. *)
Theorem half_spaces_passed_the_check g err s' :
  read_geom geometry g err = Ok tt s' ->
  all_checked g ->
  all_checked (geom s').
Proof.
  apply keeps_read_geom.
  - apply keeps_header. intros v g0 H. exact H.
  - apply keeps_checked_sections.
  - apply keeps_checked_analysis.
Qed.

End Closure.

Lemma half_spaces_passed_the_check_witness :
  exists s', run "/head/nested.geom" empty_Geometry = Ok tt s'
             /\ all_checked (C := the_world) (geom s').
Proof.
  assert (Hrun : exists s', run "/head/nested.geom" empty_Geometry = Ok tt s')
    by (eexists; vm_compute; reflexivity).
  destruct Hrun as (s' & Hrun). exists s'. split; [exact Hrun |].
  apply (@half_spaces_passed_the_check the_scanner the_world
           "/head/nested.geom" empty_Geometry "" s' Hrun).
  constructor.
Defined.

(* ===================================================================== *)
(** ** A mesh that no domain uses *)
(* ===================================================================== *)

Section Unused.
Context {L : LineScanner} {C : Collaborators}.
Variable geometry : string.

Lemma fold_add_member_unused m l : forall acc,
  Forall (fun om => mesh_eqb (mesh om) m = false) l ->
  fold_left (add_member m) l acc = acc.
Proof.
  induction l as [| x l IH]; intros acc H; simpl; [reflexivity |].
  inversion H as [| ? ? Hx Hl]; subst.
  unfold add_member at 2. rewrite Hx. now apply IH.
Qed.

Lemma nested_meshes_unused m ms ds :
  In m ms -> unused m ds -> nested_meshes ms ds = false.
Proof.
  intros Hin Hu.
  induction ms as [| m0 ms IH]; [inversion Hin |].
  simpl. destruct Hin as [-> | Hin].
  - rewrite m_oriented_flat, fold_add_member_unused by exact Hu. reflexivity.
  - destruct (m_oriented m0 ds =? 0)%Z; [reflexivity | now apply IH].
Qed.

(** X2.  A mesh of the geometry that no interface member of any domain
    equals makes the model of a successful run non-nested, whatever the
    domains are: its count [m_oriented] stays 0 (the case that the comment
    of line 376 leaves open). *)
Theorem unused_mesh_is_not_nested g err s' m :
  read_geom geometry g err = Ok tt s' ->
  In m (meshes_ (geom s')) ->
  unused m (domains_ (geom s')) ->
  is_nested_ (geom s') = false.
Proof.
  intros Hrun Hin Hu.
  apply run_stages in Hrun as (text & s0 & s1 & _ & _ & _ & Ha).
  apply analysis_Ok in Ha as (_ & _ & Hc).
  unfold classify in Hc.
  destruct (nested_domains _ 0 (domains_ (geom s'))) as [nested |];
    [| discriminate].
  inversion Hc as [Hn]. destruct nested; [| reflexivity].
  eapply nested_meshes_unused; eassumption.
Qed.

End Unused.

(* ===================================================================== *)
(** ** How a run can fail *)
(* ===================================================================== *)

Lemma ends_ret {A : Type} E X (a : A) : ends E X (ret a).
Proof. intros s. exact I. Qed.

Lemma ends_bind {A B : Type} E X (m : M A) (f : A -> M B) :
  ends E X m -> (forall a, ends E X (f a)) -> ends E X (bind m f).
Proof.
  intros Hm Hf s. unfold bind. specialize (Hm s).
  destruct (m s) as [a s1 | | |]; auto. apply Hf.
Qed.

Lemma ends_extract {A : Type} E X (f : istream -> A * istream) :
  ends E X (extract f).
Proof. intros s. unfold extract. destruct (f (ifs s)). exact I. Qed.

Lemma ends_advance E X f : ends E X (advance f).
Proof. intros s. exact I. Qed.

Lemma ends_ifs_fail E X : ends E X ifs_fail.
Proof. intros s. exact I. Qed.

Lemma ends_get_geom E X : ends E X get_geom.
Proof. intros s. exact I. Qed.

Lemma ends_modify_geom E X f : ends E X (modify_geom f).
Proof. intros s. exact I. Qed.

Lemma ends_log E X msg : ends E X (log msg).
Proof. intros s. exact I. Qed.

Lemma ends_use {A : Type} E X (v : option A) : ends E X (use v).
Proof. intros s. destruct v; exact I. Qed.

Lemma ends_peek E X : ends E X (fun s => Ok (peek (ifs s)) s).
Proof. intros s. exact I. Qed.

Create HintDb ends discriminated.
#[local] Hint Resolve ends_ret ends_extract ends_advance ends_ifs_fail
  ends_get_geom ends_modify_geom ends_log ends_use ends_peek : ends.

Ltac ends_step :=
  match goal with
  | |- ends _ _ (bind _ _) => apply ends_bind; [| intros ?]
  | |- ends _ _ (if ?b then _ else _) => destruct b
  | |- ends _ _ (match ?x with _ => _ end) => destruct x
  | |- ends _ _ (let (_, _) := ?x in _) => destruct x
  | |- ends _ _ _ => solve [auto with ends]
  end.

Section Failures.
Context {L : LineScanner} {C : Collaborators}.
Variable geometry : string.

Local Abbreviation E := (justified geometry).
Local Abbreviation X := after_failed_check.

Lemma ends_wrong_format {A : Type} : ends E X (@throw A (WrongFileFormat geometry)).
Proof. intros s. reflexivity. Qed.

Hint Resolve ends_wrong_format : ends.

Lemma ends_load {A : Type} (f : string -> option A) file :
  (f file = None -> load file = None \/ load_vtp file = None) ->
  ends E X (raise_unless file (f file)).
Proof.
  intros H s. unfold raise_unless.
  destruct (f file); [exact I |]. simpl. now apply H.
Qed.

Lemma ends_header : ends E X (header geometry).
Proof. unfold header, version_not_available. repeat ends_step. Qed.

Lemma ends_mesh_entries path n : forall i, ends E X (mesh_entries path n i).
Proof.
  induction n as [| n IH]; intros i; simpl; [auto with ends |].
  unfold mesh_entry. repeat ends_step; try apply IH.
  all: apply ends_load; auto.
Qed.

Lemma ends_mesh_section path : ends E X (mesh_section path).
Proof.
  unfold mesh_section, case_MeshFile, case_Meshes.
  repeat ends_step; try apply ends_mesh_entries.
  all: apply ends_load; auto.
Qed.

Lemma ends_interface_files path n : forall i, ends E X (interface_files path n i).
Proof.
  induction n as [| n IH]; intros i; simpl; [auto with ends |].
  unfold interface_file. repeat ends_step; try apply IH.
  all: apply ends_load; auto.
Qed.

Lemma ends_load_interfaces es : forall i, ends E X (load_interfaces i es).
Proof.
  induction es as [| e es IH]; intros i; simpl; [auto with ends |].
  unfold load_interface. destruct e as [n f].
  repeat ends_step; try apply IH.
  all: apply ends_load; auto.
Qed.

Lemma ends_geom_mesh id : ends E X (geom_mesh id).
Proof.
  intros s. unfold geom_mesh, bind, get_geom.
  destruct (find (fun m => String.eqb (mesh_name m) id) (meshes_ (geom s)))
    eqn:Ef; simpl; [exact I | exact Ef].
Qed.

Lemma ends_oriented_meshes ids : ends E X (oriented_meshes ids).
Proof.
  induction ids as [| id ids IH]; simpl; [auto with ends |].
  destruct (mesh_sign id) as [o id'].
  apply ends_bind; [apply ends_geom_mesh |]. intros m.
  repeat ends_step; try exact IH.
Qed.

Lemma ends_interface_lines n : forall i nm, ends E X (interface_lines n i nm).
Proof.
  induction n as [| n IH]; intros i nm; simpl; [auto with ends |].
  unfold interface_line.
  repeat ends_step; try apply ends_oriented_meshes; try apply IH.
Qed.

Lemma ends_interface_section path : ends E X (interface_section geometry path).
Proof.
  unfold interface_section.
  repeat ends_step;
    auto using ends_interface_files, ends_load_interfaces, ends_interface_lines.
Qed.

Lemma ends_match_interfaces k id ins its :
  forall found, ends E X (match_interfaces k id ins found its).
Proof.
  induction its as [| it its IH]; intros found; simpl; [auto with ends |].
  destruct (String.eqb (interface_name it) id); [| repeat ends_step; apply IH].
  unfold check_interface.
  destruct (check (members it)) as [closed oms] eqn:Ec.
  destruct closed; simpl.
  - unfold modify_domain. repeat ends_step; try apply IH.
  - intros s. unfold bind, log, exit. simpl. split; [reflexivity |].
    exists it, (cerr s). rewrite Ec. split; reflexivity.
Qed.

Lemma ends_unknown_interface k id :
  ends E X (bind (domain_at k)
                 (fun d => @throw (list Interface)
                             (NonExistingDomain (domain_name d) id))).
Proof.
  intros s. unfold domain_at, get_geom, use, throw, ret, undefined.
  unfold bind.
  destruct (nth_error (domains_ (geom s)) k) as [d |] eqn:Ed; simpl; [| exact I].
  exists k, d. auto.
Qed.

Lemma ends_read_ids k ids : forall its, ends E X (read_ids geometry k ids its).
Proof.
  induction ids as [| id ids IH]; intros its; simpl; [auto with ends |].
  destruct (interface_sign id) as [[ins id'] shared].
  destruct shared; [repeat ends_step |].
  apply ends_bind; [apply ends_match_interfaces |].
  intros [found its']. destruct found; simpl; [apply IH |].
  apply ends_unknown_interface.
Qed.

Lemma ends_read_domains n : forall k its, ends E X (read_domains geometry n k its).
Proof.
  induction n as [| n IH]; intros k its; simpl; [auto with ends |].
  apply ends_bind; [| intros its'; apply IH].
  unfold read_domain, domain_line, modify_domain, domain_at.
  repeat ends_step. apply ends_read_ids.
Qed.

Lemma ends_sections : ends E X (sections geometry).
Proof.
  unfold sections, domain_section, domain_count.
  repeat ends_step;
    auto using ends_mesh_section, ends_interface_section, ends_read_domains.
Qed.

Lemma ends_analysis : ends E X (analysis geometry).
Proof. unfold analysis. repeat ends_step. Qed.

Lemma ends_read_geom g err :
  match read_geom geometry g err with
  | Throw e s' => justified geometry e s'
  | Exit c s' => after_failed_check c s'
  | _ => True
  end.
Proof.
  unfold read_geom. destruct (open_file geometry) as [text |] eqn:Eo.
  - apply (ends_bind (E := E)); [apply ends_header |]. intros _.
    unfold after_header. apply ends_bind; [apply ends_sections |].
    intros _. apply ends_analysis.
  - simpl. auto.
Qed.

(** X3.  [read_geom] ends the process in one way only: with status 1, the
    last thing written to the error stream being the "is not closed"
    diagnostic of an interface whose check failed. *)
Theorem exit_only_after_failed_check g err c s' :
  read_geom geometry g err = Exit c s' ->
  after_failed_check c s'.
Proof.
  intros H. pose proof (ends_read_geom g err) as He. rewrite H in He. exact He.
Qed.

(** X4.  Every exception that leaves [read_geom] has its reason:
    [OpenError] and [WrongFileFormat] name the geometry file (which could
    not be opened, for the first), [NonExistingDomain] names a domain of
    the destination, [UnknownMesh] names a mesh that the destination does
    not hold, and a loader error names a file that a loader refused. *)
Theorem exceptions_are_justified g err e s' :
  read_geom geometry g err = Throw e s' ->
  justified geometry e s'.
Proof.
  intros H. pose proof (ends_read_geom g err) as He. rewrite H in He. exact He.
Qed.

End Failures.

Lemma unused_mesh_is_not_nested_witness :
  exists s',
    @read_geom the_scanner the_wider_world "/head/spare.geom" empty_Geometry ""
    = Ok tt s'
    /\ is_nested_ (geom s') = false.
Proof.
  assert (Hrun : exists s',
             @read_geom the_scanner the_wider_world "/head/spare.geom"
               empty_Geometry "" = Ok tt s'
             /\ In {| mesh_name := "Brain"; triangles := tetrahedron 4 |}
                  (meshes_ (geom s'))
             /\ unused (C := the_wider_world)
                  {| mesh_name := "Brain"; triangles := tetrahedron 4 |}
                  (domains_ (geom s'))).
  { eexists. split; [vm_compute; reflexivity |]. split.
    - right. left. reflexivity.
    - repeat constructor. }
  destruct Hrun as (s' & Hrun & Hin & Hun). exists s'. split; [exact Hrun |].
  exact (@unused_mesh_is_not_nested the_scanner the_wider_world
           "/head/spare.geom" empty_Geometry "" s' _ Hrun Hin Hun).
Defined.

Lemma exit_only_after_failed_check_witness :
  exists s', run "/head/open.geom" empty_Geometry = Exit 1 s'
             /\ after_failed_check (C := the_world) 1 s'.
Proof.
  assert (Hrun : exists s', run "/head/open.geom" empty_Geometry = Exit 1 s')
    by (eexists; vm_compute; reflexivity).
  destruct Hrun as (s' & Hrun). exists s'. split; [exact Hrun |].
  exact (@exit_only_after_failed_check the_scanner the_world
           "/head/open.geom" empty_Geometry "" 1%Z s' Hrun).
Defined.

Lemma exceptions_are_justified_witness :
  exists s', run "/head/ventricle.geom" empty_Geometry
             = Throw (NonExistingDomain "Brain" "Ventricle") s'
             /\ justified (C := the_world) "/head/ventricle.geom"
                  (NonExistingDomain "Brain" "Ventricle") s'.
Proof.
  assert (Hrun : exists s', run "/head/ventricle.geom" empty_Geometry
                            = Throw (NonExistingDomain "Brain" "Ventricle") s')
    by (eexists; vm_compute; reflexivity).
  destruct Hrun as (s' & Hrun). exists s'. split; [exact Hrun |].
  exact (@exceptions_are_justified the_scanner the_world
           "/head/ventricle.geom" empty_Geometry "" _ s' Hrun).
Defined.

(* ===================================================================== *)
(** ** What the domain section and the analysis do to the domains *)
(* ===================================================================== *)

Lemma find_outermost_contents ds : forall pos,
  map contents (snd (find_outermost pos ds)) = map contents ds.
Proof.
  induction ds as [| d ds IH]; intros pos; simpl; [reflexivity |].
  destruct (outer d); simpl.
  - f_equal. unfold contents. simpl. f_equal.
    rewrite map_map. reflexivity.
  - specialize (IH (S pos)).
    destruct (find_outermost (S pos) ds) as [o ds']. simpl in *.
    now rewrite IH.
Qed.

Lemma length_alter_nth {A : Type} (f : A -> A) l : forall k,
  List.length (alter_nth f k l) = List.length l.
Proof.
  induction l as [| x l IH]; intros [| k]; simpl; auto.
Qed.

Lemma nth_error_alter_nth_inv {A : Type} (f : A -> A) l : forall k j y,
  nth_error (alter_nth f j l) k = Some y ->
  exists x, nth_error l k = Some x /\ (y = x \/ y = f x).
Proof.
  induction l as [| x l IH]; intros k j y; simpl.
  - destruct k; discriminate.
  - destruct j as [| j]; destruct k as [| k]; simpl; intros H.
    + inversion H. eauto.
    + eauto.
    + inversion H. eauto.
    + eapply IH. exact H.
Qed.

Lemma length_resize {A : Type} n (d : A) l : List.length (resize n d l) = n.
Proof.
  unfold resize. rewrite length_app, length_firstn, repeat_length. lia.
Qed.

Lemma nth_error_resize {A : Type} n (d : A) l k y :
  nth_error (resize n d l) k = Some y -> y = nth k l d.
Proof.
  unfold resize. intros H.
  destruct (Nat.lt_ge_cases k (List.length (firstn n l))) as [Hk | Hk].
  - rewrite nth_error_app1 in H by exact Hk.
    rewrite nth_error_firstn in H.
    destruct (k <? n)%nat; [| discriminate].
    symmetry. now apply nth_error_nth.
  - rewrite nth_error_app2 in H by exact Hk.
    assert (Hy : y = d).
    { apply nth_error_In in H. now apply repeat_spec in H. }
    subst y.
    assert (Hn : k - List.length (firstn n l)
                 < List.length (repeat d (n - List.length l))).
    { apply nth_error_Some. rewrite H. discriminate. }
    rewrite repeat_length in Hn. rewrite length_firstn in Hn, Hk.
    symmetry. apply nth_overflow. lia.
Qed.

Lemma extends_refl d : extends d d.
Proof. exists []. now rewrite app_nil_r. Qed.

Lemma extends_same d d1 d2 :
  sides (halfspaces d2) = sides (halfspaces d1) ->
  extends d d1 -> extends d d2.
Proof.
  unfold extends. intros H [added Ha]. exists added. now rewrite H.
Qed.

Lemma sides_of_content hs1 hs2 :
  map half_space_content hs1 = map half_space_content hs2 ->
  sides hs1 = sides hs2.
Proof.
  intros H.
  assert (E : forall hs, sides hs
                         = map (fun c : string * list OrientedMesh * bool =>
                                  (fst (fst c), snd c))
                               (map half_space_content hs)).
  { intros hs. unfold sides. rewrite map_map. reflexivity. }
  now rewrite (E hs1), (E hs2), H.
Qed.

Section Accumulation.
Context {L : LineScanner} {C : Collaborators}.
Variable geometry : string.

Lemma analysis_keeps_contents s s' :
  analysis geometry s = Ok tt s' ->
  map contents (domains_ (geom s')) = map contents (domains_ (geom s))
  /\ meshes_ (geom s') = meshes_ (geom s)
  /\ version_id (geom s') = version_id (geom s)
  /\ ifs s' = ifs s
  /\ cerr s' = cerr s.
Proof.
  unfold analysis, bind, get_geom, modify_geom, use, ifs_fail, ret, throw, undefined.
  pose proof (find_outermost_contents (domains_ (geom s)) 0) as Hc.
  destruct (find_outermost 0 (domains_ (geom s))) as [dit_out ds]. simpl in *.
  destruct (classify dit_out (set_domains ds (geom s))) as [nested |];
    [| discriminate].
  cbn [ifs geom cerr].
  destruct (failbit (ifs s)); [discriminate |].
  intros H; inversion H; subst; clear H. simpl. auto.
Qed.

(** X5.  The analysis at the end of [read_geom] writes flags only: the
    names of the domains, the interfaces (name and members) and the sides
    of their half spaces, the meshes, the format version, the stream and
    what the error stream received are as before. *)
Theorem analysis_writes_flags_only s s' :
  analysis geometry s = Ok tt s' ->
  map contents (domains_ (geom s')) = map contents (domains_ (geom s))
  /\ meshes_ (geom s') = meshes_ (geom s)
  /\ version_id (geom s') = version_id (geom s)
  /\ ifs s' = ifs s
  /\ cerr s' = cerr s.
Proof. apply analysis_keeps_contents. Qed.

Lemma domain_count_Ok s n s' :
  domain_count geometry s = Ok n s' ->
  domains_ (geom s') = resize n new_Domain (domains_ (geom s)).
Proof.
  unfold domain_count, bind, extract, ifs_fail, use, modify_geom, ret, throw,
    undefined.
  destruct (read_unsigned None (match_ "Domains" (skip_comments "#" (ifs s))))
    as [v i]. cbn [ifs geom cerr].
  destruct (failbit i); [discriminate |].
  destruct v as [z |]; [| discriminate].
  intros H; inversion H; subst; clear H. reflexivity.
Qed.

(** Nothing before the [Domains] line writes to the domains. *)
Lemma domains_before_count ds0 :
  forall u sa its sb s,
    domains_ (geom s) = ds0 ->
    (if VersionId_eqb (version_id (geom s)) VERSION11
     then mesh_section (dir geometry) else ret tt) s = Ok u sa ->
    interface_section geometry (dir geometry) sa = Ok its sb ->
    domains_ (geom sb) = ds0.
Proof.
  intros u sa its sb s Hs Hm Hi.
  assert (Ka : domains_ (geom sa) = ds0).
  { destruct (VersionId_eqb (version_id (geom s)) VERSION11).
    - eapply (@keeps_mesh_section L C (fun g => domains_ g = ds0));
        [| exact Hm | exact Hs]. intros ms g H. exact H.
    - unfold ret in Hm. inversion Hm as [[Hu Hsa]]. rewrite <- Hsa. exact Hs. }
  eapply (@keeps_interface_section L C geometry (fun g => domains_ g = ds0));
    [| exact Hi | exact Ka]. intros ms g H. exact H.
Qed.

Lemma keeps_length_read_domains n0 n k its :
  keeps (fun g => List.length (domains_ g) = n0) (read_domains geometry n k its).
Proof.
  apply keeps_read_domains; intros; simpl; now rewrite length_alter_nth.
Qed.

Lemma keeps_extends_read_domains ds0 n k its :
  keeps (fun g => forall j d', nth_error (domains_ g) j = Some d' ->
                               extends (nth j ds0 new_Domain) d')
        (read_domains geometry n k its).
Proof.
  apply keeps_read_domains.
  - intros nm k0 g Hg j d' Hj. simpl in Hj.
    apply nth_error_alter_nth_inv in Hj as (x & Hx & [-> | ->]).
    + eauto.
    + eapply extends_same; [| eapply Hg; exact Hx]. reflexivity.
  - intros hs k0 g Hg j d' Hj. simpl in Hj.
    apply nth_error_alter_nth_inv in Hj as (x & Hx & [-> | ->]).
    + eauto.
    + destruct (Hg j x Hx) as [added Ha].
      exists (added ++ [(interface_name (interface hs), inside hs)])%list.
      simpl. unfold sides in *. rewrite map_app, Ha, <- app_assoc. reflexivity.
Qed.

(** The run up to the end of the domain section: the state in which the
    number of domains is read holds the domains of the destination. *)
Lemma run_to_domains g err s' :
  read_geom geometry g err = Ok tt s' ->
  exists sb n sc its its' s1,
    domains_ (geom sb) = domains_ g
    /\ domain_count geometry sb = Ok n sc
    /\ read_domains geometry n 0 its sc = Ok its' s1
    /\ analysis geometry s1 = Ok tt s'.
Proof.
  intros Hrun.
  apply run_stages in Hrun as (text & s0 & s1 & _ & Hh & Hs & Ha).
  apply sections_stages in Hs as (u & sa & its & sb & n & sc & its' & Hm & Hi & Hc & Hd).
  exists sb, n, sc, its, its', s1. repeat split; auto.
  eapply domains_before_count; [| exact Hm | exact Hi].
  eapply (@keeps_header L geometry (fun g0 => domains_ g0 = domains_ g));
    [| exact Hh | reflexivity].
  intros v g0 H. exact H.
Qed.

(** X6.  The model of a successful run has as many domains as the number
    that this run reads at the [Domains] line, whatever the destination
    held: at that line the domains are those of the destination resized to
    the number, and nothing after that adds or removes a domain. *)
Theorem domains_are_as_many_as_announced g err s' :
  read_geom geometry g err = Ok tt s' ->
  exists sc,
    announced_domains geometry g err
    = Ok (List.length (domains_ (geom s'))) sc
    /\ domains_ (geom sc)
       = resize (List.length (domains_ (geom s'))) new_Domain (domains_ g).
Proof.
  intros Hrun.
  apply run_stages in Hrun as (text & s0 & s1 & Hopen & Hh & Hs & Ha).
  apply sections_stages in Hs
    as (u & sa & its & sb & n & sc & its' & Hm & Hi & Hc & Hd).
  assert (Hb : domains_ (geom sb) = domains_ g).
  { eapply domains_before_count; [| exact Hm | exact Hi].
    eapply (@keeps_header L geometry (fun g0 => domains_ g0 = domains_ g));
      [| exact Hh | reflexivity].
    intros v g0 H. exact H. }
  assert (Hn : List.length (domains_ (geom s')) = n).
  { apply analysis_keeps_contents in Ha as (Hmap & _).
    apply (f_equal (@List.length _)) in Hmap. rewrite !length_map in Hmap.
    rewrite Hmap.
    eapply keeps_length_read_domains; [exact Hd |].
    apply domain_count_Ok in Hc. rewrite Hc. apply length_resize. }
  exists sc. rewrite Hn. split.
  - unfold announced_domains. rewrite Hopen.
    unfold bind at 1. rewrite Hh.
    unfold bind at 1. unfold get_geom.
    unfold bind at 1. rewrite Hm.
    unfold bind. rewrite Hi. exact Hc.
  - apply domain_count_Ok in Hc. now rewrite Hc, Hb.
Qed.

(** X7.  A run on a destination that holds domains already never removes
    or reorders a half space: the domain at each position of the model
    holds the half spaces, by interface name and side, that the domain at
    this position of the destination held (none, where there was no
    domain), followed by those that the run appended. *)
Theorem half_spaces_are_only_appended g err s' k d' :
  read_geom geometry g err = Ok tt s' ->
  nth_error (domains_ (geom s')) k = Some d' ->
  extends (nth k (domains_ g) new_Domain) d'.
Proof.
  intros Hrun Hk.
  apply run_to_domains in Hrun as (sb & n & sc & its & its' & s1 & Hb & Hc & Hd & Ha).
  apply analysis_keeps_contents in Ha as (Hm & _).
  assert (Hk1 : nth_error (map contents (domains_ (geom s'))) k
                = Some (contents d')) by now apply map_nth_error.
  rewrite Hm in Hk1.
  rewrite nth_error_map in Hk1.
  destruct (nth_error (domains_ (geom s1)) k) as [d1 |] eqn:Hd1;
    [| discriminate].
  simpl in Hk1. unfold contents in Hk1. injection Hk1 as Hn Hh.
  eapply extends_same; [apply sides_of_content; symmetry; exact Hh |].
  eapply (@keeps_extends_read_domains (domains_ g)); [exact Hd | | exact Hd1].
  intros j x Hj. apply domain_count_Ok in Hc. rewrite Hc, Hb in Hj.
  apply nth_error_resize in Hj. subst x. apply extends_refl.
Qed.

End Accumulation.

Lemma analysis_writes_flags_only_witness :
  exists s',
    @analysis the_world "/head/ventricle.geom" after_skull_id
    = Ok tt s'
    /\ map contents (domains_ (geom s'))
       = map contents (domains_ (geom after_skull_id)).
Proof.
  assert (Hrun : exists s',
             @analysis the_world "/head/ventricle.geom"
               after_skull_id = Ok tt s')
    by (eexists; vm_compute; reflexivity).
  destruct Hrun as (s' & Hrun). exists s'. split; [exact Hrun |].
  exact (proj1 (@analysis_writes_flags_only the_world
                  "/head/ventricle.geom" after_skull_id s' Hrun)).
Defined.

Lemma domains_are_as_many_as_announced_witness :
  exists s' sc,
    run "/head/nested.geom" used_Geometry = Ok tt s'
    /\ announced_domains (L := the_scanner) (C := the_world)
         "/head/nested.geom" used_Geometry "" = Ok 3 sc
    /\ List.length (domains_ (geom s')) = 3.
Proof.
  assert (Hrun : exists s',
             run "/head/nested.geom" used_Geometry = Ok tt s'
             /\ List.length (domains_ (geom s')) = 3)
    by (eexists; split; vm_compute; reflexivity).
  destruct Hrun as (s' & Hrun & Hlen).
  destruct (@domains_are_as_many_as_announced the_scanner the_world
              "/head/nested.geom" used_Geometry "" s' Hrun) as (sc & Hsc & _).
  exists s', sc. rewrite Hlen in Hsc. auto.
Defined.

Lemma half_spaces_are_only_appended_witness :
  exists s' d',
    run "/head/nested.geom" used_Geometry = Ok tt s'
    /\ nth_error (domains_ (geom s')) 0 = Some d'
    /\ extends air_domain d'.
Proof.
  assert (Hrun : exists s' d',
             run "/head/nested.geom" used_Geometry = Ok tt s'
             /\ nth_error (domains_ (geom s')) 0 = Some d')
    by (do 2 eexists; split; vm_compute; reflexivity).
  destruct Hrun as (s' & d' & Hrun & Hd). exists s', d'.
  split; [exact Hrun |]. split; [exact Hd |].
  exact (@half_spaces_are_only_appended the_scanner the_world
           "/head/nested.geom" used_Geometry "" s' 0 d' Hrun Hd).
Defined.

(* ===================================================================== *)
(** ** The path helpers *)
(* ===================================================================== *)

Lemma substring_prefix a b :
  substring 0 (String.length a) (a ++ b) = a.
Proof.
  induction a as [| c a IH]; simpl.
  - destruct b; reflexivity.
  - now rewrite IH.
Qed.

Lemma append_assoc (a b c : string) : (a ++ b) ++ c = a ++ (b ++ c).
Proof. induction a as [| x a IH]; simpl; [reflexivity | now rewrite IH]. Qed.

Lemma length_append (a b : string) :
  String.length (a ++ b) = String.length a + String.length b.
Proof. induction a as [| x a IH]; simpl; [reflexivity | now rewrite IH]. Qed.

(** What [find_last_of] finds: nothing when the character does not occur,
    and else the position behind which it does not occur any more. *)
Lemma find_last_of_spec d s :
  match find_last_of d s with
  | None => contains d s = false
  | Some p =>
      exists pre base,
        s = pre ++ String d base
        /\ String.length pre = p
        /\ contains d base = false
  end.
Proof.
  induction s as [| c s IH]; simpl; [reflexivity |].
  destruct (find_last_of d s) as [p |].
  - destruct IH as (pre & base & -> & Hp & Hb).
    exists (String c pre), base. simpl. rewrite Hp. auto.
  - destruct (Ascii.eqb_spec c d) as [-> | Hc]; simpl.
    + exists "", s. auto.
    + exact IH.
Qed.

Lemma find_last_of_append d pre base :
  contains d base = false ->
  find_last_of d (pre ++ String d base) = Some (String.length pre).
Proof.
  intros Hb.
  assert (Hn : find_last_of d base = None).
  { pose proof (find_last_of_spec d base) as H.
    destruct (find_last_of d base) as [p |]; [| reflexivity].
    destruct H as (a & b & -> & _ & _).
    exfalso. clear - Hb. induction a as [| x a IH]; simpl in Hb.
    - now rewrite Ascii.eqb_refl in Hb.
    - apply orb_false_iff in Hb as [_ Hb]. auto. }
  induction pre as [| c pre IH]; simpl.
  - now rewrite Hn, Ascii.eqb_refl.
  - now rewrite IH.
Qed.

(** X8.  [dir] cuts the file name behind its last ['/']: the name is the
    directory followed by a base name without ['/'], and the directory is
    empty or ends with ['/']. *)
Theorem dir_cuts_behind_the_last_slash filename :
  exists base,
    filename = dir filename ++ base
    /\ contains "/" base = false
    /\ (dir filename = "" \/ exists p, dir filename = p ++ "/").
Proof.
  unfold dir. pose proof (find_last_of_spec "/" filename) as H.
  destruct (find_last_of "/" filename) as [p |].
  - destruct H as (pre & base & -> & Hp & Hb). exists base.
    assert (Hd : substring 0 (p + 1) (pre ++ String "/" base) = pre ++ "/").
    { replace (pre ++ String "/" base) with ((pre ++ "/") ++ base)
        by (rewrite append_assoc; reflexivity).
      replace (p + 1) with (String.length (pre ++ "/"))
        by (rewrite length_append; simpl; lia).
      apply substring_prefix. }
    rewrite Hd. split; [| split; [exact Hb | right; now exists pre]].
    rewrite append_assoc. reflexivity.
  - exists filename. auto.
Qed.

(** X9.  The directory of a path is the path up to its last ['/'], that
    included; a name without ['/'] has the empty directory. *)
Theorem dir_of_a_path p base :
  contains "/" base = false ->
  dir (p ++ "/" ++ base) = p ++ "/" /\ dir base = "".
Proof.
  intros Hb. unfold dir. split.
  - change (p ++ "/" ++ base) with (p ++ String "/" base).
    rewrite find_last_of_append by exact Hb.
    replace (p ++ String "/" base) with ((p ++ "/") ++ base)
      by (rewrite append_assoc; reflexivity).
    replace (String.length p + 1) with (String.length (p ++ "/"))
      by (rewrite length_append; simpl; lia).
    apply substring_prefix.
  - pose proof (find_last_of_spec "/" base) as H.
    destruct (find_last_of "/" base) as [q |]; [| reflexivity].
    destruct H as (a & b & -> & _ & _).
    exfalso. clear - Hb. induction a as [| x a IH]; simpl in Hb.
    + discriminate.
    + apply orb_false_iff in Hb as [_ Hb]. auto.
Qed.

Lemma dir_of_a_path_witness :
  dir ("/head" ++ "/" ++ "nested.geom") = "/head" ++ "/"
  /\ dir "nested.geom" = "".
Proof. apply (@dir_of_a_path "/head" "nested.geom"). reflexivity. Defined.

(** X10.  The mesh files of a geometry file given by an absolute path are
    resolved to absolute paths, whatever the description names. *)
Theorem absolute_geometry_gives_absolute_files geometry file :
  is_relative_path geometry = false ->
  is_relative_path (fullname file (dir geometry)) = false.
Proof.
  unfold is_relative_path at 1. intros Hg.
  apply negb_false_iff, Ascii.eqb_eq in Hg.
  destruct geometry as [| c rest]; simpl in Hg; [discriminate |]. subst c.
  unfold fullname. destruct (is_relative_path file) eqn:Hf; [| exact Hf].
  unfold dir. pose proof (find_last_of_spec "/" (String "/" rest)) as H.
  destruct (find_last_of "/" (String "/" rest)) as [p |].
  - rewrite Nat.add_1_r. reflexivity.
  - simpl in H. discriminate.
Qed.

Lemma absolute_geometry_gives_absolute_files_witness :
  is_relative_path (fullname "skull.tri" (dir "/head/nested.geom")) = false.
Proof.
  apply (@absolute_geometry_gives_absolute_files "/head/nested.geom" "skull.tri").
  reflexivity.
Defined.

(** X11.  [name] writes different numbers differently: the default names
    of the meshes and interfaces of one file are pairwise distinct. *)
Theorem name_is_injective n m :
  (0 <= n)%Z -> (0 <= m)%Z -> n <> m -> name n <> name m.
Proof.
  unfold name. intros Hn Hm Hd H. apply Hd.
  apply (f_equal NilEmpty.uint_of_string) in H.
  rewrite !NilEmpty.usu in H. injection H as H.
  apply (f_equal N.of_uint) in H.
  rewrite !DecimalN.Unsigned.of_to in H. lia.
Qed.

Lemma name_is_injective_witness : name 1 <> name 2.
Proof.
  apply (@name_is_injective 1 2); [lia | lia | discriminate].
Defined.

(* ===================================================================== *)
(** ** The interface section *)
(* ===================================================================== *)

Lemma alter_nth_last {A : Type} (f : A -> A) (l : list A) x :
  alter_nth f (List.length l) (l ++ [x])%list = (l ++ [f x])%list.
Proof. induction l as [| y l IH]; simpl; [reflexivity | now rewrite IH]. Qed.

Lemma nth_error_last {A : Type} (l : list A) x :
  nth_error (l ++ [x])%list (List.length l) = Some x.
Proof. induction l as [| y l IH]; simpl; [reflexivity | exact IH]. Qed.

Lemma NoDup_default_names n : NoDup (default_names n).
Proof.
  unfold default_names. generalize 1. induction n as [| n IH]; intros a; simpl.
  - constructor.
  - constructor; [| apply IH].
    rewrite in_map_iff. intros (k & Hk & Hin).
    apply in_seq in Hin.
    assert (Hka : Z.of_nat k = Z.of_nat a).
    { destruct (Z.eq_dec (Z.of_nat k) (Z.of_nat a)) as [E | E]; [exact E |].
      exfalso. revert Hk. unfold name. intros H.
      apply (f_equal NilEmpty.uint_of_string) in H.
      rewrite !NilEmpty.usu in H. injection H as H.
      apply (f_equal N.of_uint) in H.
      rewrite !DecimalN.Unsigned.of_to in H. lia. }
    lia.
Qed.

Section Interfaces.
Context {L : LineScanner} {C : Collaborators}.
Variable geometry : string.

(** Lines 248-251, run when the geometry holds [i] meshes. *)
Lemma load_interface_Ok i e it s s' :
  load_interface i e s = Ok it s' ->
  List.length (meshes_ (geom s)) = i ->
  interface_name it = fst e
  /\ one_mesh it
  /\ meshes_ (geom s') = (meshes_ (geom s) ++ map mesh (members it))%list.
Proof.
  destruct e as [nm file]. intros H Hi. subst i. revert H.
  unfold load_interface, bind, modify_geom, raise_unless, get_geom, use, ret,
    throw, undefined.
  cbn [ifs geom cerr].
  destruct (load file) as [tris |]; [| discriminate].
  cbn [ifs geom cerr meshes_ set_meshes].
  rewrite alter_nth_last, nth_error_last.
  intros H; inversion H; subst; clear H. simpl.
  split; [reflexivity |]. split; [| reflexivity].
  eexists. simpl. auto.
Qed.

Lemma load_interfaces_Ok es : forall i its s s',
  load_interfaces i es s = Ok its s' ->
  List.length (meshes_ (geom s)) = i ->
  map interface_name its = map fst es
  /\ Forall one_mesh its
  /\ meshes_ (geom s') = (meshes_ (geom s) ++ interface_meshes its)%list.
Proof.
  induction es as [| e es IH]; intros i its s s' H Hi; simpl in H.
  - unfold ret in H. inversion H; subst. simpl.
    rewrite app_nil_r. auto.
  - apply bind_Ok_inv in H as (it & s1 & H1 & H).
    apply bind_Ok_inv in H as (its1 & s2 & H2 & H).
    unfold ret in H. injection H as <- <-.
    apply load_interface_Ok in H1 as (Hn & Ho & Hm); [| exact Hi].
    apply IH in H2 as (Hns & Hos & Hms).
    + simpl. rewrite Hn, Hns, Hms, Hm.
      unfold interface_meshes at 2. simpl. rewrite <- app_assoc.
      split; [reflexivity |]. split; [constructor; assumption | reflexivity].
    + rewrite Hm. destruct Ho as (m & -> & _). simpl.
      rewrite length_app. simpl. lia.
Qed.

(** Lines 227-240 leave the destination alone; in a file of the former
    format the interface gets its position as name. *)
Lemma interface_file_Ok path i e s s' :
  interface_file path i s = Ok e s' ->
  geom s' = geom s
  /\ (version_id (geom s) = VERSION10 -> fst e = name (wrap (i + 1))).
Proof.
  unfold interface_file. intros H.
  apply bind_Ok_inv in H as (unnamed & s1 & H1 & H).
  assert (G1 : geom s1 = geom s).
  { revert H1. unfold extract.
    destruct (match_optional "Interface:" (skip_comments "#" (ifs s))).
    intros H1; inversion H1; reflexivity. }
  apply bind_Ok_inv in H as (g & s2 & H2 & H).
  unfold get_geom in H2. inversion H2; subst g s2; clear H2.
  apply bind_Ok_inv in H as (nm & s3 & H3 & H).
  apply bind_Ok_inv in H as (file & s4 & H4 & H).
  apply bind_Ok_inv in H as (tris & s5 & H5 & H).
  unfold ret in H. inversion H; subst; clear H. simpl.
  assert (G4 : geom s4 = geom s3).
  { revert H4. unfold extract. destruct (filename dquote false (ifs s3)).
    intros H4; inversion H4; reflexivity. }
  assert (G5 : geom s' = geom s4).
  { revert H5. unfold raise_unless.
    destruct (load (fullname file path)); [| discriminate].
    unfold ret. intros H5; inversion H5; reflexivity. }
  split.
  - rewrite G5, G4, <- G1.
    destruct (unnamed || VersionId_eqb (version_id (geom s1)) VERSION10).
    + unfold ret in H3. now inversion H3.
    + revert H3. unfold extract.
      destruct (token ":" "" (match_ "Interface" (ifs s1))).
      intros H3; inversion H3; reflexivity.
  - intros Hv. rewrite G1, Hv in H3.
    rewrite orb_true_r in H3. unfold ret in H3. now inversion H3.
Qed.

Lemma interface_files_Ok path n : forall i es s s',
  interface_files path n i s = Ok es s' ->
  geom s' = geom s
  /\ List.length es = n
  /\ (version_id (geom s) = VERSION10 ->
      map fst es = map (fun k => name (wrap (i + 1 + Z.of_nat k))) (seq 0 n)).
Proof.
  induction n as [| n IH]; intros i es s s' H; simpl in H.
  - unfold ret in H. inversion H; subst. auto.
  - apply bind_Ok_inv in H as (e & s1 & H1 & H).
    apply bind_Ok_inv in H as (rest & s2 & H2 & H).
    unfold ret in H. inversion H; subst; clear H.
    apply interface_file_Ok in H1 as (G1 & N1).
    apply IH in H2 as (G2 & Hl & N2).
    split; [congruence |]. split; [simpl; congruence |].
    intros Hv. simpl. rewrite N1 by exact Hv.
    rewrite N2 by (rewrite G1; exact Hv).
    rewrite Z.add_0_r. f_equal.
    rewrite <- seq_shift, map_map.
    apply map_ext. intros k. f_equal. f_equal. lia.
Qed.

(** The interface section run on a geometry without mesh. *)
Lemma interface_section_files path s its s' :
  interface_section geometry path s = Ok its s' ->
  meshes_ (geom s) = [] ->
  Forall one_mesh its
  /\ meshes_ (geom s') = interface_meshes its
  /\ (version_id (geom s) = VERSION10 ->
      map interface_name its = default_names (List.length its)).
Proof.
  unfold interface_section. intros H Hm.
  apply bind_Ok_inv in H as (n & s1 & H1 & H).
  assert (G1 : geom s1 = geom s
               /\ forall v, n = Some v -> (0 <= v < UINT_MODULUS)%Z).
  { revert H1. unfold extract.
    destruct (read_unsigned None (match_ "Interfaces" (skip_comments "#" (ifs s))))
      as [n0 i0] eqn:Er.
    destruct (match_optional "Mesh" i0) as [b i1].
    intros H1; inversion H1; subst; clear H1. split; [reflexivity |].
    intros v ->. eapply read_unsigned_range. exact Er. }
  destruct G1 as (G1 & Hrange).
  apply bind_Ok_inv in H as (failed & s2 & H2 & H).
  unfold ifs_fail in H2. inversion H2; subst failed s2; clear H2.
  destruct (failbit (ifs s1)); [discriminate |].
  apply bind_Ok_inv in H as (nb & s2 & H2 & H).
  destruct n as [v |]; [| discriminate].
  unfold use, ret in H2. inversion H2; subst nb s2; clear H2.
  specialize (Hrange v eq_refl).
  apply bind_Ok_inv in H as (g & s2 & H2 & H).
  unfold get_geom in H2. inversion H2; subst g s2; clear H2.
  rewrite G1, Hm in H. simpl in H.
  apply bind_Ok_inv in H as (es & s2 & H2 & H).
  apply interface_files_Ok in H2 as (G2 & Hl & Hn).
  apply load_interfaces_Ok in H as (Hns & Ho & Hms);
    [| rewrite G2, G1, Hm; reflexivity].
  rewrite G2, G1, Hm in Hms. simpl in Hms.
  split; [exact Ho |]. split; [exact Hms |].
  intros Hv. rewrite Hns, Hn by (rewrite G1; exact Hv).
  assert (Hlen : List.length its = Z.to_nat v).
  { rewrite <- Hl, <- (length_map fst es), <- Hns. symmetry. apply length_map. }
  rewrite Hlen. unfold default_names.
  rewrite <- seq_shift, map_map.
  apply map_ext_in. intros k Hk. apply in_seq in Hk. f_equal.
  unfold wrap. rewrite Z.mod_small; [lia |].
  unfold UINT_MODULUS in *. lia.
Qed.

(** X12.  When the geometry holds no mesh at the [Interfaces] line, every
    interface that the section builds is made of one mesh of its own that
    carries its name and is taken as well oriented, and the meshes of the
    geometry are then these meshes, in the order of the interfaces. *)
Theorem one_mesh_per_interface path s its s' :
  interface_section geometry path s = Ok its s' ->
  meshes_ (geom s) = [] ->
  Forall one_mesh its /\ meshes_ (geom s') = interface_meshes its.
Proof.
  intros H Hm.
  destruct (@interface_section_files path s its s' H Hm) as (Ho & Hms & _). auto.
Qed.

Lemma geom_mesh_Ok id m s s' :
  geom_mesh id s = Ok m s' -> s' = s /\ In m (meshes_ (geom s)).
Proof.
  unfold geom_mesh, bind, get_geom.
  destruct (find (fun m0 => String.eqb (mesh_name m0) id) (meshes_ (geom s)))
    as [m0 |] eqn:Ef; [| discriminate].
  unfold ret. intros H; inversion H; subst.
  split; [reflexivity |]. apply find_some in Ef. tauto.
Qed.

Lemma oriented_meshes_Ok ids : forall oms s s',
  oriented_meshes ids s = Ok oms s' ->
  s' = s /\ Forall (fun om => In (mesh om) (meshes_ (geom s))) oms.
Proof.
  induction ids as [| id ids IH]; intros oms s s' H; simpl in H.
  - unfold ret in H. inversion H; subst. auto.
  - destruct (mesh_sign id) as [o id'].
    apply bind_Ok_inv in H as (m & s1 & H1 & H).
    apply bind_Ok_inv in H as (rest & s2 & H2 & H).
    unfold ret in H. inversion H; subst; clear H.
    apply geom_mesh_Ok in H1 as (-> & Hin).
    apply IH in H2 as (-> & Hall).
    split; [reflexivity |]. constructor; assumption.
Qed.

Lemma interface_lines_Ok n : forall i nm its s s',
  interface_lines n i nm s = Ok its s' ->
  geom s' = geom s
  /\ List.length its = n
  /\ Forall (made_of (meshes_ (geom s))) its.
Proof.
  induction n as [| n IH]; intros i nm its s s' H; simpl in H.
  - unfold ret in H. inversion H; subst. auto.
  - apply bind_Ok_inv in H as ([nm1 it] & s1 & H1 & H).
    apply bind_Ok_inv in H as (rest & s2 & H2 & H).
    unfold ret in H. inversion H; subst; clear H.
    apply IH in H2 as (G2 & Hl & Hall).
    unfold interface_line in H1.
    apply bind_Ok_inv in H1 as (line & s0 & H0 & H1).
    assert (G0 : geom s0 = geom s).
    { revert H0. unfold extract. destruct (getline (skip_comments "#" (ifs s))).
      intros H0; inversion H0; reflexivity. }
    destruct (match_optional "Interface:" (stream_of line)) as [unnamed iss].
    destruct (if unnamed then (name (wrap (i + 1)), iss)
              else token ":" nm (match_ "Interface" iss)) as [nm2 iss2].
    apply bind_Ok_inv in H1 as (oms & s3 & H3 & H1).
    unfold ret in H1. inversion H1; subst; clear H1.
    apply oriented_meshes_Ok in H3 as (-> & Hin).
    rewrite G0 in *.
    split; [exact G2 |]. split; [simpl; congruence |].
    constructor; [| exact Hall].
    split; [exact Hin | reflexivity].
Qed.

(** X14.  When the geometry holds meshes at the [Interfaces] line, the
    section loads nothing and leaves the geometry as it is: every member of
    every interface that it builds is a mesh that the geometry holds
    already. *)
Theorem interfaces_are_made_of_loaded_meshes path s its s' :
  interface_section geometry path s = Ok its s' ->
  meshes_ (geom s) <> [] ->
  geom s' = geom s /\ Forall (made_of (meshes_ (geom s))) its.
Proof.
  unfold interface_section. intros H Hm.
  apply bind_Ok_inv in H as (n & s1 & H1 & H).
  assert (G1 : geom s1 = geom s).
  { revert H1. unfold extract.
    destruct (read_unsigned None (match_ "Interfaces" (skip_comments "#" (ifs s))))
      as [n0 i0].
    destruct (match_optional "Mesh" i0) as [b i1].
    intros H1; inversion H1; reflexivity. }
  apply bind_Ok_inv in H as (failed & s2 & H2 & H).
  unfold ifs_fail in H2. inversion H2; subst failed s2; clear H2.
  destruct (failbit (ifs s1)); [discriminate |].
  apply bind_Ok_inv in H as (nb & s2 & H2 & H).
  destruct n as [v |]; [| discriminate].
  unfold use, ret in H2. inversion H2; subst nb s2; clear H2.
  apply bind_Ok_inv in H as (g & s2 & H2 & H).
  unfold get_geom in H2. inversion H2; subst g s2; clear H2.
  rewrite G1 in H.
  destruct (meshes_ (geom s)) as [| m ms] eqn:Em; [congruence |].
  simpl in H.
  apply interface_lines_Ok in H as (G & _ & Hall).
  rewrite G1, Em in *. auto.
Qed.

(** X13.  A file of the former format (1.0) that is read into a geometry
    without mesh gives meshes named [1], [2], ... in their order, whatever
    the file says: the names are pairwise distinct. *)
Theorem legacy_meshes_are_numbered g err s' :
  read_geom geometry g err = Ok tt s' ->
  meshes_ g = [] ->
  version_id (geom s') = VERSION10 ->
  map mesh_name (meshes_ (geom s'))
  = default_names (List.length (meshes_ (geom s')))
  /\ NoDup (map mesh_name (meshes_ (geom s'))).
Proof.
  intros Hrun Hm Hv.
  assert (Hnames : map mesh_name (meshes_ (geom s'))
                   = default_names (List.length (meshes_ (geom s'))));
    [| split; [exact Hnames | rewrite Hnames; apply NoDup_default_names]].
  apply run_stages in Hrun as (text & s0 & s1 & _ & Hh & Hs & Ha).
  assert (Hm0 : meshes_ (geom s0) = []).
  { eapply (@keeps_header L geometry (fun g0 => meshes_ g0 = []));
      [| exact Hh | exact Hm]. intros v g0 H. exact H. }
  assert (Hv0 : version_id (geom s0) = VERSION10).
  { destruct (version_id (geom s0)) eqn:E0; [| reflexivity |].
    - assert (version_id (geom s') = UNKNOWN_VERSION); [| congruence].
      eapply (@keeps_version_after_header L C geometry UNKNOWN_VERSION);
        [| exact E0]. unfold after_header, bind. rewrite Hs. exact Ha.
    - assert (version_id (geom s') = VERSION11); [| congruence].
      eapply (@keeps_version_after_header L C geometry VERSION11);
        [| exact E0]. unfold after_header, bind. rewrite Hs. exact Ha. }
  apply analysis_keeps_contents in Ha as (_ & Hms & _). rewrite Hms.
  apply sections_stages in Hs
    as (u & sa & its & sb & n & sc & its' & Hmesh & Hi & Hc & Hd).
  rewrite Hv0 in Hmesh. simpl in Hmesh.
  unfold ret in Hmesh. inversion Hmesh; subst u sa; clear Hmesh.
  destruct (@interface_section_files _ _ _ _ Hi Hm0) as (Ho & Hmb & Hn).
  specialize (Hn Hv0).
  assert (Hkeep : meshes_ (geom s1) = meshes_ (geom sb)).
  { eapply (@keeps_read_domains L C geometry
              (fun g0 => meshes_ g0 = meshes_ (geom sb)));
      [| | exact Hd |]; try (intros; assumption).
    eapply (@keeps_domain_count L geometry
              (fun g0 => meshes_ g0 = meshes_ (geom sb)));
      [| exact Hc | reflexivity]. intros; assumption. }
  rewrite Hkeep, Hmb.
  assert (Hsame : map mesh_name (interface_meshes its) = map interface_name its
                  /\ List.length (interface_meshes its) = List.length its).
  { clear - Ho. induction Ho as [| it its (m & Hmem & Hname & _) _ [IH1 IH2]].
    - auto.
    - unfold interface_meshes in *. simpl. rewrite Hmem. simpl.
      rewrite IH1, IH2, Hname. auto. }
  destruct Hsame as (-> & ->). exact Hn.
Qed.

End Interfaces.

Lemma one_mesh_per_interface_witness :
  exists its s',
    interface_section (L := the_scanner) (C := the_world)
      "/head/legacy.geom" "/head/" at_legacy_interfaces = Ok its s'
    /\ Forall one_mesh its
    /\ meshes_ (geom s') = interface_meshes its.
Proof.
  assert (Hrun : exists its s',
             interface_section (L := the_scanner) (C := the_world)
               "/head/legacy.geom" "/head/" at_legacy_interfaces = Ok its s')
    by (do 2 eexists; vm_compute; reflexivity).
  destruct Hrun as (its & s' & Hrun). exists its, s'.
  split; [exact Hrun |].
  exact (@one_mesh_per_interface the_scanner the_world "/head/legacy.geom"
           "/head/" at_legacy_interfaces its s' Hrun eq_refl).
Defined.

Lemma interfaces_are_made_of_loaded_meshes_witness :
  exists its s',
    interface_section (L := the_scanner) (C := the_world)
      "/head/nested.geom" "/head/" at_nested_interfaces = Ok its s'
    /\ geom s' = geom at_nested_interfaces
    /\ Forall (made_of (meshes_ (geom at_nested_interfaces))) its.
Proof.
  assert (Hrun : exists its s',
             interface_section (L := the_scanner) (C := the_world)
               "/head/nested.geom" "/head/" at_nested_interfaces = Ok its s')
    by (do 2 eexists; vm_compute; reflexivity).
  destruct Hrun as (its & s' & Hrun). exists its, s'.
  split; [exact Hrun |].
  apply (@interfaces_are_made_of_loaded_meshes the_scanner the_world
           "/head/nested.geom" "/head/" at_nested_interfaces its s' Hrun).
  discriminate.
Defined.

Lemma legacy_meshes_are_numbered_witness :
  exists s',
    run "/head/legacy.geom" empty_Geometry = Ok tt s'
    /\ map mesh_name (meshes_ (geom s'))
       = default_names (List.length (meshes_ (geom s')))
    /\ NoDup (map mesh_name (meshes_ (geom s'))).
Proof.
  assert (Hrun : exists s',
             run "/head/legacy.geom" empty_Geometry = Ok tt s'
             /\ version_id (geom s') = VERSION10)
    by (eexists; split; vm_compute; reflexivity).
  destruct Hrun as (s' & Hrun & Hv). exists s'. split; [exact Hrun |].
  exact (@legacy_meshes_are_numbered the_scanner the_world "/head/legacy.geom"
           empty_Geometry "" s' Hrun eq_refl Hv).
Defined.

(* ===================================================================== *)
(** ** The conductivities *)
(* ===================================================================== *)

Section ReadCond.
Variable Sigma : Type.
Variable properties : string -> string -> option Sigma.
Variable condFileName : string.

(** X15.  When [read_cond] returns, the domains are the same, in their
    order, and each carries the conductivity that the properties give for
    its name. *)
Theorem read_cond_assigns_every_domain ds ds' :
  read_cond properties condFileName ds = Returned ds' ->
  map (@domain Sigma) ds' = map (@domain Sigma) ds
  /\ Forall (assigned properties condFileName) ds'.
Proof.
  unfold read_cond, assigned. revert ds'.
  induction ds as [| d ds IH]; intros ds' H; simpl in H.
  - inversion H; subst. auto.
  - destruct (properties condFileName (domain_name (domain d))) as [c |] eqn:Ef;
      [| discriminate].
    destruct (assign_sigma (properties condFileName) ds) as [r | n r];
      [| discriminate].
    inversion H; subst; clear H.
    destruct (IH r eq_refl) as (Hd & Ha).
    simpl. rewrite Hd. split; [reflexivity |].
    constructor; [exact Ef | exact Ha].
Qed.

(** X16.  When [read_cond] throws [BadDomain], the name thrown is the name
    of the first domain for which the properties have no entry; the domains
    before it have received their conductivities all the same, this domain
    and those behind it are as they were. *)
Theorem read_cond_stops_at_the_first_unknown_domain ds n ds' :
  read_cond properties condFileName ds = BadDomain n ds' ->
  exists pre pre' d post,
    ds = (pre ++ d :: post)%list
    /\ ds' = (pre' ++ d :: post)%list
    /\ n = domain_name (domain d)
    /\ properties condFileName n = None
    /\ map (@domain Sigma) pre' = map (@domain Sigma) pre
    /\ Forall (assigned properties condFileName) pre'.
Proof.
  unfold read_cond, assigned. revert n ds'.
  induction ds as [| d ds IH]; intros n ds' H; simpl in H; [discriminate |].
  destruct (properties condFileName (domain_name (domain d))) as [c |] eqn:Ef.
  - destruct (assign_sigma (properties condFileName) ds) as [r | n0 r];
      [discriminate |].
    inversion H; subst; clear H.
    destruct (IH n r eq_refl)
      as (pre & pre' & d0 & post & -> & -> & Hn & Hf & Hd & Ha).
    exists (d :: pre), ({| domain := domain d; sigma := c |} :: pre'), d0, post.
    simpl. rewrite Hd. repeat split; auto.
  - inversion H; subst; clear H.
    exists [], [], d, ds. simpl. repeat split; auto.
Qed.

(** X17.  [read_cond] returns exactly when the properties have an entry for
    the name of every domain of the geometry; an entry for a name that no
    domain carries is no error. *)
Theorem read_cond_returns_iff_every_domain_is_known ds :
  (exists ds', read_cond properties condFileName ds = Returned ds')
  <-> Forall (known properties condFileName) ds.
Proof.
  unfold read_cond, known.
  induction ds as [| d ds IH]; simpl.
  - split; [constructor | eauto].
  - destruct (properties condFileName (domain_name (domain d))) as [c |] eqn:Ef.
    + destruct (assign_sigma (properties condFileName) ds) as [r | n r].
      * split; [| eauto]. intros _. constructor; [congruence |].
        apply IH. eauto.
      * split.
        -- intros [ds' H]. discriminate.
        -- intros H. inversion H; subst.
           apply IH in H3 as [ds' H']. discriminate.
    + split.
      * intros [ds' H]. discriminate.
      * intros H. inversion H; subst. congruence.
Qed.

End ReadCond.

Lemma read_cond_assigns_every_domain_witness :
  exists ds',
    read_cond head_properties "/head/head.cond"
      [conducting brain_domain; conducting air_domain] = Returned ds'
    /\ Forall (assigned head_properties "/head/head.cond") ds'.
Proof.
  eexists. split; [reflexivity |].
  exact (proj2 (@read_cond_assigns_every_domain Z head_properties
                  "/head/head.cond"
                  [conducting brain_domain; conducting air_domain] _ eq_refl)).
Defined.

Lemma read_cond_stops_at_the_first_unknown_domain_witness :
  exists pre pre' d post,
    [conducting brain_domain; conducting bone_domain; conducting air_domain]
    = (pre ++ d :: post)%list
    /\ [ {| domain := brain_domain; sigma := 100%Z |};
         conducting bone_domain; conducting air_domain ]
      = (pre' ++ d :: post)%list
    /\ "Bone" = domain_name (domain d)
    /\ head_properties "/head/head.cond" "Bone" = None
    /\ map (@domain Z) pre' = map (@domain Z) pre
    /\ Forall (assigned head_properties "/head/head.cond") pre'.
Proof.
  apply (@read_cond_stops_at_the_first_unknown_domain Z head_properties
           "/head/head.cond"
           [conducting brain_domain; conducting bone_domain; conducting air_domain]
           "Bone").
  reflexivity.
Defined.

(* ===================================================================== *)
(** ** The list of meshes, and the stream at the end *)
(* ===================================================================== *)

Section Meshes.
Context {L : LineScanner} {C : Collaborators}.
Variable geometry : string.

(** An entry of the list of meshes: its name and file are scanned, then the
    file is loaded. *)
Lemma mesh_entry_eq path i s :
  mesh_entry path i s
  = let (e, is') := mesh_entry_names i (ifs s) in
    match load (fullname (snd e) path) with
    | Some tris =>
        Ok {| mesh_name := fst e; triangles := tris |}
           {| ifs := is'; geom := geom s; cerr := cerr s |}
    | None =>
        Throw (MeshLoadError (fullname (snd e) path))
              {| ifs := is'; geom := geom s; cerr := cerr s |}
    end.
Proof.
  destruct s as [i0 g0 c0].
  unfold mesh_entry, mesh_entry_names, bind, advance, extract, raise_unless,
    ret, throw.
  cbn [ifs geom cerr].
  destruct (match peek (match_ "Mesh" (skip_comments "#" i0)) with
            | Some c => Ascii.eqb c ":"
            | None => false
            end); cbn [ifs geom cerr].
  - destruct (filename dquote false (match_ "Mesh" (skip_comments "#" i0)))
      as [file is3].
    cbn [ifs geom cerr fst snd].
    destruct (load (fullname file path)); reflexivity.
  - destruct (token ":" "" (match_ "Mesh" (skip_comments "#" i0)))
      as [nm is2].
    cbn [ifs geom cerr].
    destruct (filename dquote false is2) as [file is3].
    cbn [ifs geom cerr fst snd].
    destruct (load (fullname file path)); reflexivity.
Qed.

Lemma mesh_entries_Ok path n : forall i ms s s',
  mesh_entries path n i s = Ok ms s' ->
  Forall2 (entry_mesh path) (fst (mesh_list n i (ifs s))) ms
  /\ s' = {| ifs := snd (mesh_list n i (ifs s)); geom := geom s; cerr := cerr s |}.
Proof.
  induction n as [| n IH]; intros i ms s s' H; simpl in H.
  - unfold ret in H. injection H as <- <-. simpl.
    split; [constructor | destruct s; reflexivity].
  - apply bind_Ok_inv in H as (m & s1 & H1 & H).
    apply bind_Ok_inv in H as (rest & s2 & H2 & H).
    unfold ret in H. injection H as <- <-.
    rewrite mesh_entry_eq in H1. cbn [mesh_list].
    destruct (mesh_entry_names i (ifs s)) as [e is1].
    destruct (load (fullname (snd e) path)) as [tris |] eqn:El; [| discriminate].
    injection H1 as <- <-.
    apply IH in H2 as (Hall & ->). cbn [ifs geom cerr] in *.
    destruct (mesh_list n (i + 1) is1) as [es is2]. simpl in *.
    split; [| reflexivity].
    constructor; [| exact Hall]. split; [reflexivity | exact El].
Qed.

Lemma mesh_entries_total path n : forall i s,
  Forall (fun e => load (fullname (snd e) path) <> None)
         (fst (mesh_list n i (ifs s))) ->
  exists ms s', mesh_entries path n i s = Ok ms s'.
Proof.
  induction n as [| n IH]; intros i s H; simpl.
  - eexists. eexists. reflexivity.
  - cbn [mesh_list] in H. unfold bind at 1. rewrite mesh_entry_eq.
    destruct (mesh_entry_names i (ifs s)) as [e is1].
    destruct (mesh_list n (i + 1) is1) as [es is2] eqn:El. simpl in H.
    inversion H as [| ? ? He Hes]; subst.
    destruct (load (fullname (snd e) path)) as [tris |]; [| congruence].
    destruct (IH (i + 1)%Z {| ifs := is1; geom := geom s; cerr := cerr s |})
      as (ms & s' & Hms).
    { cbn [ifs]. rewrite El. exact Hes. }
    unfold bind. rewrite Hms. eexists. eexists. reflexivity.
Qed.

(** X18.  The list of meshes sets the meshes of the geometry to what
    [import_meshes] makes of the meshes of its entries, as many as the
    number read and in their order: each carries the name of its entry and
    the triangles loaded from the file of the same entry, resolved against
    [path].  The list is read to its end whenever every file of an entry
    loads. *)
Theorem list_of_meshes_replaces_the_meshes path s :
  (forall s',
      case_Meshes path s = Ok tt s' ->
      exists v i ms,
        read_unsigned None (ifs s) = (Some v, i)
        /\ Forall2 (entry_mesh path) (fst (mesh_list (Z.to_nat v) 0 i)) ms
        /\ meshes_ (geom s') = import_meshes ms
        /\ ifs s' = snd (mesh_list (Z.to_nat v) 0 i))
  /\ (forall v i,
         read_unsigned None (ifs s) = (Some v, i) ->
         Forall (fun e => load (fullname (snd e) path) <> None)
                (fst (mesh_list (Z.to_nat v) 0 i)) ->
         exists s', case_Meshes path s = Ok tt s').
Proof.
  split.
  - intros s'. unfold case_Meshes. intros H.
    apply bind_Ok_inv in H as (n & s1 & H1 & H).
    revert H1. unfold extract.
    destruct (read_unsigned None (ifs s)) as [n0 i] eqn:Er.
    intros H1. injection H1 as <- <-.
    apply bind_Ok_inv in H as (nb & s2 & H2 & H).
    destruct n0 as [v |]; [| discriminate].
    unfold use, ret in H2. injection H2 as <- <-.
    apply bind_Ok_inv in H as (ms & s3 & H3 & H).
    apply mesh_entries_Ok in H3 as (Hall & ->). cbn [ifs geom cerr] in *.
    unfold modify_geom in H. injection H as <-.
    exists v, i, ms. cbn [ifs geom cerr meshes_ set_meshes]. auto.
  - intros v i Er Hall. unfold case_Meshes.
    unfold bind at 1. unfold extract. rewrite Er.
    unfold bind at 1. unfold use, ret.
    destruct (@mesh_entries_total path (Z.to_nat v) 0%Z
                {| ifs := i; geom := geom s; cerr := cerr s |} Hall)
      as (ms & s1 & Hms).
    unfold bind. rewrite Hms. eexists. reflexivity.
Qed.

(** X19.  [read_geom] returns only when the stream has not failed: a run
    that returns leaves a stream without fail bit. *)
Theorem returns_only_with_a_sound_stream g err s' :
  read_geom geometry g err = Ok tt s' ->
  failbit (ifs s') = false.
Proof.
  intros Hrun.
  apply run_stages in Hrun as (text & s0 & s1 & _ & _ & _ & Ha).
  revert Ha.
  unfold analysis, bind, get_geom, modify_geom, use, ifs_fail, ret, throw, undefined.
  destruct (find_outermost 0 (domains_ (geom s1))) as [dit_out ds]. simpl.
  destruct (classify dit_out (set_domains ds (geom s1))) as [nested |];
    [| discriminate].
  cbn [ifs geom cerr].
  destruct (failbit (ifs s1)) eqn:Ef; [discriminate |].
  intros H. injection H as <-. exact Ef.
Qed.

End Meshes.

Lemma list_of_meshes_replaces_the_meshes_witness :
  exists s',
    case_Meshes (L := the_scanner) (C := the_world) "/head/" at_nested_meshes
    = Ok tt s'
    /\ exists ms,
         Forall2 (entry_mesh (C := the_world) "/head/")
                 [("Skull", "skull.tri"); ("Brain", "brain.tri")] ms
         /\ meshes_ (geom s') = ms.
Proof.
  assert (Hrun : exists s',
             case_Meshes (L := the_scanner) (C := the_world) "/head/"
               at_nested_meshes = Ok tt s')
    by (eexists; vm_compute; reflexivity).
  destruct Hrun as (s' & Hrun). exists s'. split; [exact Hrun |].
  destruct (proj1 (@list_of_meshes_replaces_the_meshes the_scanner the_world
                     "/head/" at_nested_meshes) s' Hrun)
    as (v & i & ms & Hr & Hall & Hms & _).
  exists ms. split; [| exact Hms].
  vm_compute in Hr. injection Hr as <- <-. exact Hall.
Defined.

Lemma returns_only_with_a_sound_stream_witness :
  exists s', run "/head/nested.geom" empty_Geometry = Ok tt s'
             /\ failbit (ifs s') = false.
Proof.
  assert (Hrun : exists s', run "/head/nested.geom" empty_Geometry = Ok tt s')
    by (eexists; vm_compute; reflexivity).
  destruct Hrun as (s' & Hrun). exists s'. split; [exact Hrun |].
  exact (@returns_only_with_a_sound_stream the_scanner the_world
           "/head/nested.geom" empty_Geometry "" s' Hrun).
Defined.
